(** * UDP double-array telemetry channel: sender, receiver and wire format

    A shallow embedding of [UdpDoubleSender] and [UdpDoubleReceiver]
    (directory "both side/c++") together with the properties of the wire
    format they exchange.

    Conventions.
    - A fixed-width C++ integer is a [Z]; every place where the C++ value is
      converted to a narrower or unsigned type is written with the wrap
      functions [u16], [u32], [u64], [s32], [s64].
    - A byte is a [Byte.byte]; [byte.unsigned] and [byte.of_Z] convert.
    - A [double] is its IEEE-754 binary64 bit pattern, an unsigned 64-bit
      number: the program only ever moves doubles with [memcpy] between a
      [double] and a [uint64_t], never through arithmetic or formatting.
    - A pointer into a byte buffer is the list of bytes from that address
      on; [p + k] is [skipn k p] and [p[i]] is [idx p i].
    - System calls (clock, socket creation, send, recvfrom) are inputs of
      the functions that perform them. *)

From Stdlib Require Import String ZArith List Lia Bool.
From coqutil Require Import Byte Z.bitblast Z.prove_Zeq_bitwise.
Import ListNotations.
Local Open Scope list_scope.
Local Open Scope Z_scope.

Abbreviation byte := Init.Byte.byte (only parsing).

(** ** Fixed-width integers *)

Definition u16 (x : Z) : Z := x mod 2 ^ 16.
Definition u32 (x : Z) : Z := x mod 2 ^ 32.
Definition u64 (x : Z) : Z := x mod 2 ^ 64.

(** Two's complement reading of the low 32 (64) bits. *)
Definition s32 (x : Z) : Z := (x + 2 ^ 31) mod 2 ^ 32 - 2 ^ 31.
Definition s64 (x : Z) : Z := (x + 2 ^ 63) mod 2 ^ 64 - 2 ^ 63.

Definition INT64_MIN : Z := - 2 ^ 63.
Definition INT64_MAX : Z := 2 ^ 63 - 1.
Definition INT32_MAX : Z := 2 ^ 31 - 1.

(** A double is carried as its bit pattern. *)
Definition double : Type := Z.
Definition is_double (d : double) : Prop := 0 <= d < 2 ^ 64.

Definition dbl_one       : double := 0x3FF0000000000000.
Definition dbl_quiet_nan : double := 0x7FF8000000000000.
Definition dbl_nan_payload : double := 0x7FF0000000000001.
Definition dbl_pos_inf   : double := 0x7FF0000000000000.
Definition dbl_neg_inf   : double := 0xFFF0000000000000.
Definition dbl_neg_zero  : double := 0x8000000000000000.

(** ** Byte buffers *)

(** [p[i]], as an unsigned value. *)
Definition idx (p : list byte) (i : nat) : Z := byte.unsigned (nth i p Byte.x00).

(** [memcpy(buf + off, src, |src|)]: the bytes of [src] replace those of
    [buf] from offset [off] on.  The callers keep [off + |src|] within the
    buffer. *)
Definition memcpy (buf : list byte) (off : nat) (src : list byte) : list byte :=
  firstn off buf ++ src ++ skipn (off + length src) buf.

(** Two buffers that hold the same first [n] bytes. *)
Definition agree (n : nat) (p q : list byte) : Prop :=
  forall j, (j < n)%nat -> idx p j = idx q j.

(** ** The receiver: UdpDoubleReceiver.cpp *)

Module Receiver.

Inductive Endian := Big | Little.

Record Packet := mkPacket {
  seq : Z;                (* std::uint32_t *)
  timestampNanos : Z;     (* std::uint64_t *)
  data : list double      (* std::vector<double> *)
}.

Definition MAGIC_UDPD : Z := 0x55445044.
Definition VERSION_1 : Z := 1.
Definition HEADER_BYTES : Z := 20.

Definition read16 (p : list byte) (e : Endian) : Z :=
  match e with
  | Big => u16 (Z.lor (Z.shiftl (idx p 0) 8) (idx p 1))
  | Little => u16 (Z.lor (Z.shiftl (idx p 1) 8) (idx p 0))
  end.

Definition read32 (p : list byte) (e : Endian) : Z :=
  match e with
  | Big =>
      Z.lor (Z.lor (Z.lor (u32 (Z.shiftl (idx p 0) 24))
                          (u32 (Z.shiftl (idx p 1) 16)))
                   (u32 (Z.shiftl (idx p 2) 8)))
            (idx p 3)
  | Little =>
      Z.lor (Z.lor (Z.lor (u32 (Z.shiftl (idx p 3) 24))
                          (u32 (Z.shiftl (idx p 2) 16)))
                   (u32 (Z.shiftl (idx p 1) 8)))
            (idx p 0)
  end.

(** One turn of either loop of [read64]: [v = (v << 8) | p[i]]. *)
Definition read64_step (p : list byte) (v : Z) (i : nat) : Z :=
  Z.lor (u64 (Z.shiftl v 8)) (idx p i).

Definition read64 (p : list byte) (e : Endian) : Z :=
  match e with
  | Big => fold_left (read64_step p) [0; 1; 2; 3; 4; 5; 6; 7]%nat 0
  | Little => fold_left (read64_step p) [7; 6; 5; 4; 3; 2; 1; 0]%nat 0
  end.

Definition readDouble (p : list byte) (e : Endian) : double :=
  let bits := read64 p e in
  bits.

(** The receiver object.  The socket handle and the thread object are left
    out; [running_] is the loop flag that [start] and [stop] drive. *)
Record State := mkState {
  endian_ : Endian;
  running_ : bool;
  recvBuffer_ : list byte;
  latest_ : Packet;
  hasData_ : bool
}.

Definition set_running (r : State) (b : bool) : State :=
  mkState (endian_ r) b (recvBuffer_ r) (latest_ r) (hasData_ r).

Definition set_recvBuffer (r : State) (buf : list byte) : State :=
  mkState (endian_ r) (running_ r) buf (latest_ r) (hasData_ r).

(** [latest_ = std::move(pkt); hasData_ = true;] *)
Definition publish (r : State) (pkt : Packet) : State :=
  mkState (endian_ r) (running_ r) (recvBuffer_ r) pkt true.

(** Constructor: the buffer size has a floor of 256 bytes.  The
    [resize] of the buffer is taken to succeed; for a size the vector
    cannot hold it throws and no receiver is built. *)
Definition construct (bufferSize : Z) (endian : Endian) : State :=
  let bufferSize_ := if bufferSize <? 256 then 256 else bufferSize in
  mkState endian false (repeat Byte.x00 (Z.to_nat bufferSize_)) (mkPacket 0 0 []) false.

(** [start]: [setup_ok] tells whether WSAStartup, socket, inet_pton and
    bind all succeeded. *)
Definition start (r : State) (setup_ok : bool) : State * bool :=
  if running_ r then (r, true)
  else if setup_ok then (set_running r true, true)
  else (r, false).

Definition stop (r : State) : State := set_running r false.

(** [getLatest(out)]: the new receiver state, the new value of [out] and
    the returned flag. *)
Definition getLatest (r : State) (out : Packet) : State * Packet * bool :=
  if negb (hasData_ r) then (r, out, false)
  else (r, latest_ r, true).

(** The validation and decoding part of the loop body, from the length
    check to the filled [pkt]; [None] is a [continue].  [p] is
    [recvBuffer_.data()] and [received] the value [recvfrom] returned. *)
Definition decode (e : Endian) (p : list byte) (received : Z) : option Packet :=
  if received <? HEADER_BYTES then None
  else
    let magic := read32 (skipn 0 p) e in
    let ver := read16 (skipn 4 p) e in
    let count := read16 (skipn 6 p) e in
    let seq := read32 (skipn 8 p) e in
    let ts := read64 (skipn 12 p) e in
    if negb (magic =? MAGIC_UDPD) then None
    else if negb (ver =? VERSION_1) then None
    else
      let expectedBytes := HEADER_BYTES + count * 8 in
      if expectedBytes >? received then None
      else
        let dptr := skipn 20 p in
        Some (mkPacket seq ts
                (map (fun i => readDouble (skipn (i * 8) dptr) e)
                     (List.seq 0 (Z.to_nat count)))).

(** What one call of [recvfrom] did. *)
Inductive RecvResult :=
| SocketError (err : Z)            (* SOCKET_ERROR, with WSAGetLastError() *)
| Received (bytes : list byte).    (* the datagram stored at the start of
                                      recvBuffer_; its length is returned *)

(** One turn of the [while (running_)] loop of [run], entered with
    [running_] true.  [stopped] tells whether [stop] cleared [running_]
    while [recvfrom] was executing.  The two socket-error branches differ
    only in how long they sleep.  The buffer is taken as untouched by a
    failing [recvfrom]; [RecvLoop.run_iteration] below has the loop with
    what Winsock stores there before it fails. *)
Definition run_iteration (r : State) (stopped : bool) (res : RecvResult) : State :=
  let r :=
    match res with
    | Received d => set_recvBuffer r (memcpy (recvBuffer_ r) 0 d)
    | SocketError _ => r
    end in
  if stopped then set_running r false
  else
    match res with
    | SocketError _ => r
    | Received d =>
        match decode (endian_ r) (recvBuffer_ r) (Z.of_nat (length d)) with
        | None => r
        | Some pkt => publish r pkt
        end
    end.

(** The loop over the successive outcomes of [recvfrom]. *)
Fixpoint run (r : State) (turns : list (bool * RecvResult)) : State :=
  match turns with
  | [] => r
  | (stopped, res) :: rest =>
      if running_ r then run (run_iteration r stopped res) rest else r
  end.

End Receiver.

(** ** The sender: UdpDoubleSender.cpp *)

Module Sender.

(** The byte order of the machine the sender runs on; the source finds it
    out at run time ([isLittleEndian_]) and through [htons]/[htonl]. *)
Inductive HostOrder := HostLittle | HostBig.

Definition MAGIC : Z := 0x55445044.
Definition VERSION : Z := 1.
Definition HEADER_BYTES : Z := 20.
Definition DEFAULT_MAX_UDP_PAYLOAD : Z := 1400.

(** The [n] low bytes of [v], least significant first. *)
Fixpoint le_bytes (n : nat) (v : Z) : list byte :=
  match n with
  | O => []
  | S n' => byte.of_Z v :: le_bytes n' (Z.shiftr v 8)
  end.

(** Object representation of an [n]-byte unsigned integer in the memory of
    the host: what [memcpy(dst, &v, n)] copies. *)
Definition object_bytes (h : HostOrder) (n : nat) (v : Z) : list byte :=
  match h with
  | HostLittle => le_bytes n v
  | HostBig => rev (le_bytes n v)
  end.

(** [uint16_t one = 1; return *reinterpret_cast<uint8_t*>(&one) == 1;] *)
Definition isLittleEndian_ (h : HostOrder) : bool :=
  idx (object_bytes h 2 1) 0 =? 1.

Definition bswap64_ (x : Z) : Z :=
  Z.lor (Z.lor (Z.lor (Z.lor (Z.lor (Z.lor (Z.lor
    (u64 (Z.shiftl (Z.land x 0x00000000000000FF) 56))
    (u64 (Z.shiftl (Z.land x 0x000000000000FF00) 40)))
    (u64 (Z.shiftl (Z.land x 0x0000000000FF0000) 24)))
    (u64 (Z.shiftl (Z.land x 0x00000000FF000000) 8)))
    (Z.shiftr (Z.land x 0x000000FF00000000) 8))
    (Z.shiftr (Z.land x 0x0000FF0000000000) 24))
    (Z.shiftr (Z.land x 0x00FF000000000000) 40))
    (Z.shiftr (Z.land x 0xFF00000000000000) 56).

Definition hostToBE64_ (h : HostOrder) (v : Z) : Z :=
  if isLittleEndian_ h then bswap64_ v else v.

(** The socket library's [htons] and [htonl]: host order to network (big
    endian) order, a byte swap on a little-endian host and the identity on
    a big-endian one. *)
Definition htons (h : HostOrder) (v : Z) : Z :=
  match h with
  | HostLittle => u16 (Z.lor (Z.shiftl (Z.land v 0xFF) 8) (Z.shiftr (Z.land v 0xFF00) 8))
  | HostBig => v
  end.

Definition htonl (h : HostOrder) (v : Z) : Z :=
  match h with
  | HostLittle =>
      Z.lor (Z.lor (Z.lor
        (u32 (Z.shiftl (Z.land v 0x000000FF) 24))
        (u32 (Z.shiftl (Z.land v 0x0000FF00) 8)))
        (Z.shiftr (Z.land v 0x00FF0000) 8))
        (Z.shiftr (Z.land v 0xFF000000) 24)
  | HostBig => v
  end.

(** The [write*] helpers take the buffer and the offset of [dst] in it. *)
Definition writeBE16_ (h : HostOrder) (buf : list byte) (off : nat) (v : Z) : list byte :=
  let be := htons h v in
  memcpy buf off (object_bytes h 2 be).

Definition writeBE32u_ (h : HostOrder) (buf : list byte) (off : nat) (u : Z) : list byte :=
  let be := htonl h u in
  memcpy buf off (object_bytes h 4 be).

Definition writeBE32_fromBits_ (h : HostOrder) (buf : list byte) (off : nat) (s : Z) : list byte :=
  let u := u32 s in
  writeBE32u_ h buf off u.

Definition writeBE64_fromBits_ (h : HostOrder) (buf : list byte) (off : nat) (s : Z) : list byte :=
  let u := u64 s in
  let be := hostToBE64_ h u in
  memcpy buf off (object_bytes h 8 be).

Definition writeDoubleBE_ (h : HostOrder) (buf : list byte) (off : nat) (d : double) : list byte :=
  let bits := u64 d in
  let bits := hostToBE64_ h bits in
  memcpy buf off (object_bytes h 8 bits).

(** The sender object; of the socket only the descriptor is kept
    ([sock_ >= 0] when open, the POSIX variant of the source). *)
Record State := mkState {
  sock_ : Z;
  connect_ : bool;
  maxDoubles_ : Z;        (* int *)
  seq_ : Z;               (* int32_t *)
  buffer_ : list byte;
  tsOffset_ : Z           (* int64_t *)
}.

Definition isOpen_ (s : State) : bool := sock_ s >=? 0.

Definition closeSock_ (s : State) : State :=
  mkState (-1) (connect_ s) (maxDoubles_ s) (seq_ s) (buffer_ s) (tsOffset_ s).

Definition close (s : State) : State := closeSock_ s.

Definition set_seq (s : State) (v : Z) : State :=
  mkState (sock_ s) (connect_ s) (maxDoubles_ s) v (buffer_ s) (tsOffset_ s).

Definition set_buffer (s : State) (buf : list byte) : State :=
  mkState (sock_ s) (connect_ s) (maxDoubles_ s) (seq_ s) buf (tsOffset_ s).

(** [initTimestampOffset_]: [now] is the steady clock reading in
    nanoseconds as an [int64_t]; the result is the new [tsOffset_].  The
    negation, like the sum in [monotonicNowNanosNonNegative_], is that of
    the 64-bit two's complement machine integer. *)
Definition initTimestampOffset_ (now : Z) : Z :=
  if now <? 0 then s64 (- now) else 0.

Definition monotonicNowNanosNonNegative_ (s : State) (now : Z) : Z :=
  s64 (now + tsOffset_ s).

(** How a call ends: a returned value or one of the two exceptions the
    source throws. *)
Inductive Outcome (A : Type) :=
| Returned (a : A)
| InvalidArgument (what : string)      (* std::invalid_argument *)
| RuntimeError (what : string).        (* std::runtime_error *)
Arguments Returned {A} a.
Arguments InvalidArgument {A} what.
Arguments RuntimeError {A} what.

Definition is_argument_error {A : Type} (o : Outcome A) : bool :=
  match o with InvalidArgument _ => true | _ => false end.

(** Constructor.  [now] is the clock reading taken by
    [initTimestampOffset_]; [socket_setup] is what
    [createAndConfigureSocket_] did: the message of the exception it threw
    or the descriptor it stored in [sock_]. *)
Definition construct (maxDoubles : Z) (connectUdp : bool) (maxPayloadBytes : Z)
    (now : Z) (socket_setup : string + Z) : Outcome State :=
  let payloadLimit :=
    if maxPayloadBytes >? 0 then maxPayloadBytes else DEFAULT_MAX_UDP_PAYLOAD in
  let maxByPayload := Z.max 0 (Z.quot (payloadLimit - HEADER_BYTES) 8) in
  let maxDoubles_ := Z.max 0 (Z.min maxDoubles maxByPayload) in
  let buffer_ := repeat Byte.x00 (Z.to_nat (HEADER_BYTES + maxDoubles_ * 8)) in
  let tsOffset_ := initTimestampOffset_ now in
  match socket_setup with
  | inl what => RuntimeError what
  | inr fd => Returned (mkState fd connectUdp maxDoubles_ 0 buffer_ tsOffset_)
  end.

Definition getMaxDoubles (s : State) : Z := maxDoubles_ s.

(** The encoding step of [sendWithSeq]: header and payload are written
    into the scratch buffer; the result is the buffer and the number of
    bytes of it that make the datagram.  [data[i]] beyond the end of [data]
    (never read when the caller passes [count] elements) is taken as 0. *)
Definition encodeFrame (h : HostOrder) (buf : list byte)
    (data : list double) (count seq timestampNanos : Z) : list byte * Z :=
  let n := u16 count in
  let bytes := HEADER_BYTES + n * 8 in
  let buf := writeBE32u_ h buf 0 MAGIC in
  let buf := writeBE16_ h buf 4 VERSION in
  let buf := writeBE16_ h buf 6 n in
  let buf := writeBE32_fromBits_ h buf 8 seq in
  let buf := writeBE64_fromBits_ h buf 12 timestampNanos in
  let buf :=
    fold_left (fun b i => writeDoubleBE_ h b (20 + i * 8) (nth i data 0))
              (List.seq 0 (Z.to_nat n)) buf in
  (buf, bytes).

(** What the system does for one call: the clock reading, the value
    returned by [send]/[sendto] and the text of [lastSockErr_()]. *)
Record Env := mkEnv {
  clock_now : Z;
  send_result : Z;
  last_sock_err : string
}.

(** The result of a call: the object afterwards, how the call ended and
    the datagram the socket accepted, if any. *)
Record Sent := mkSent {
  after : State;
  outcome : Outcome Z;
  wire : option (list byte)
}.

(** [sendWithSeq(data, count, seq, timestampNanos)]; a null [data] is
    [None]. *)
Definition sendWithSeq (h : HostOrder) (env : Env) (s : State)
    (data : option (list double)) (count seq timestampNanos : Z) : Sent :=
  match data with
  | None => mkSent s (InvalidArgument "data is null") None
  | Some data =>
      if count <=? 0 then mkSent s (Returned 0) None
      else if count >? maxDoubles_ s then
        mkSent s (InvalidArgument "count > maxDoubles/payload cap") None
      else if negb (isOpen_ s) then
        mkSent s (RuntimeError "socket not open") None
      else
        let timestampNanos :=
          if timestampNanos =? INT64_MIN
          then monotonicNowNanosNonNegative_ s (clock_now env)
          else timestampNanos in
        let '(buf, bytes) :=
          encodeFrame h (buffer_ s) data count seq timestampNanos in
        let s := set_buffer s buf in
        let sent := send_result env in
        if sent <? 0 then
          mkSent s (RuntimeError ("send/sendto failed: " ++ last_sock_err env)) None
        else
          mkSent s (Returned sent) (Some (firstn (Z.to_nat bytes) buf))
  end.

(** [sendAutoSeq(data, count)]: [seq_++] is evaluated before the call, so
    the counter advances whatever the call does; the increment wraps as the
    two's complement [int32_t] does. *)
Definition sendAutoSeq (h : HostOrder) (env : Env) (s : State)
    (data : option (list double)) (count : Z) : Sent :=
  let seq := seq_ s in
  let s := set_seq s (s32 (seq + 1)) in
  sendWithSeq h env s data count seq INT64_MIN.

(** The calls made on a sender during its life, each with what the system
    did for it.  [close] returns nothing; its outcome is given as 0. *)
Inductive Call :=
| CallSendWithSeq (data : option (list double)) (count seq timestampNanos : Z)
| CallSendAutoSeq (data : option (list double)) (count : Z)
| CallClose.

Definition call (h : HostOrder) (s : State) (env : Env) (c : Call) : Sent :=
  match c with
  | CallSendWithSeq data count seq ts => sendWithSeq h env s data count seq ts
  | CallSendAutoSeq data count => sendAutoSeq h env s data count
  | CallClose => mkSent (close s) (Returned 0) None
  end.

(** The results of the successive calls. *)
Fixpoint lifetime (h : HostOrder) (s : State) (calls : list (Env * Call)) : list Sent :=
  match calls with
  | [] => []
  | (env, c) :: rest =>
      let r := call h s env c in
      r :: lifetime h (after r) rest
  end.

(** Whether a call uses the default timestamp. *)
Definition default_timestamp (c : Call) : bool :=
  match c with
  | CallSendWithSeq _ _ _ ts => ts =? INT64_MIN
  | CallSendAutoSeq _ _ => true
  | CallClose => false
  end.

End Sender.

(** ** Observing a datagram *)

(** The header fields of a datagram as a big-endian peer reads them, the
    sequence and the time stamp as the signed numbers the sender wrote. *)
Definition wire_magic (d : list byte) : Z := Receiver.read32 (skipn 0 d) Receiver.Big.
Definition wire_version (d : list byte) : Z := Receiver.read16 (skipn 4 d) Receiver.Big.
Definition wire_count (d : list byte) : Z := Receiver.read16 (skipn 6 d) Receiver.Big.
Definition wire_sequence (d : list byte) : Z := s32 (Receiver.read32 (skipn 8 d) Receiver.Big).
Definition wire_timestamp (d : list byte) : Z := s64 (Receiver.read64 (skipn 12 d) Receiver.Big).

(** The big-endian bytes of the low [n] bytes of [v]. *)
Definition be_bytes (n : nat) (v : Z) : list byte := rev (Sender.le_bytes n v).

(** The frame layout: 20 header bytes, then 8 bytes for each double. *)
Definition header_bytes (n seq ts : Z) : list byte :=
  be_bytes 4 Sender.MAGIC ++ be_bytes 2 Sender.VERSION ++ be_bytes 2 n
    ++ be_bytes 4 seq ++ be_bytes 8 ts.

Definition payload_bytes (data : list double) : list byte :=
  concat (map (be_bytes 8) data).

(** The doubles the payload loop reads: [data[0]], ..., [data[k-1]]. *)
Definition read_data (data : list double) (k : nat) : list double :=
  map (fun i => nth i data 0) (List.seq 0 k).

(** The time stamp [sendWithSeq] puts in the frame: the caller's, or the
    clock's when the caller passed [INT64_MIN]. *)
Definition stamp (s : Sender.State) (env : Sender.Env) (timestampNanos : Z) : Z :=
  if timestampNanos =? INT64_MIN
  then Sender.monotonicNowNanosNonNegative_ s (Sender.clock_now env)
  else timestampNanos.

(** ** Sample data *)

(** A datagram as the sender encodes it: two doubles, the given sequence
    number, time stamp 1000. *)
Definition sample_datagram (seq : Z) : list byte :=
  let '(buf, bytes) :=
    Sender.encodeFrame Sender.HostLittle (repeat Byte.x00 36)
      [dbl_one; dbl_neg_zero] 2 seq 1000 in
  firstn (Z.to_nat bytes) buf.

(** The same with its first byte, or its version field, damaged. *)
Definition bad_magic_datagram : list byte :=
  Byte.x00 :: skipn 1 (sample_datagram 5).

Definition bad_version_datagram : list byte :=
  firstn 5 (sample_datagram 5) ++ Byte.x02 :: skipn 6 (sample_datagram 5).

(** A big-endian receiver with the default buffer, started. *)
Definition sample_receiver : Receiver.State :=
  fst (Receiver.start (Receiver.construct 2048 Receiver.Big) true).

(** A sender of at most 64 doubles whose clock read [now] when it was
    built. *)
Definition sample_sender (now : Z) : Sender.State :=
  match Sender.construct 64 true 1400 now (inr 3) with
  | Sender.Returned s => s
  | _ => Sender.mkState (-1) false 0 0 [] 0
  end.

Definition sample_env (now : Z) : Sender.Env := Sender.mkEnv now 36 EmptyString.

(** A sender whose payload limit allows 65536 doubles. *)
Definition large_sender : Sender.State :=
  match Sender.construct 65536 true 1000000 0 (inr 3) with
  | Sender.Returned s => s
  | _ => Sender.mkState (-1) false 0 0 [] 0
  end.

(** A sender whose counter is one short of the largest [int32_t], and
    three calls of [sendAutoSeq] on it. *)
Definition wrapping_sender : Sender.State :=
  Sender.set_seq (sample_sender 0) (INT32_MAX - 1).

Definition three_sends : list (Sender.Env * option (list double) * Z) :=
  [(sample_env 10, Some [dbl_one], 1);
   (sample_env 20, Some [dbl_one; dbl_neg_zero], 2);
   (sample_env 30, Some [dbl_pos_inf], 1)].

(** Calls on a sender built when the clock read -5000: one of each kind
    with the default time stamp, and one with a time stamp of its own. *)
Definition timed_calls : list (Sender.Env * Sender.Call) :=
  [(sample_env (-5000), Sender.CallSendAutoSeq (Some [dbl_one]) 1);
   (sample_env (-1), Sender.CallSendWithSeq (Some [dbl_one]) 1 42 INT64_MIN);
   (sample_env 7, Sender.CallSendWithSeq (Some [dbl_one]) 1 43 (-12345));
   (sample_env 7, Sender.CallSendAutoSeq (Some [dbl_neg_inf]) 1)].

(** ** The loop seen from outside *)

(** The packets that the datagrams of a run decode to, in delivery order. *)
Definition delivered_packets (e : Receiver.Endian)
    (turns : list (bool * Receiver.RecvResult)) : list Receiver.Packet :=
  flat_map
    (fun t =>
       match snd t with
       | Receiver.Received d =>
           match Receiver.decode e d (Z.of_nat (length d)) with
           | Some pkt => [pkt]
           | None => []
           end
       | Receiver.SocketError _ => []
       end)
    turns.

(** Uninterrupted turns that each deliver one datagram. *)
Definition deliveries (ds : list (list byte)) : list (bool * Receiver.RecvResult) :=
  map (fun d => (false, Receiver.Received d)) ds.

(** ** The sender seen from outside *)

(** The scratch buffer has the size the constructor gave it. *)
Definition sender_wf (s : Sender.State) : Prop :=
  0 <= Sender.maxDoubles_ s /\
  length (Sender.buffer_ s) = Z.to_nat (Sender.HEADER_BYTES + Sender.maxDoubles_ s * 8).

(** [k] calls of [sendAutoSeq], each with its array, its count and what the
    system does. *)
Definition auto_calls (args : list (Sender.Env * option (list double) * Z))
  : list (Sender.Env * Sender.Call) :=
  map (fun a => (fst (fst a), Sender.CallSendAutoSeq (snd (fst a)) (snd a))) args.

(** Successive clock readings that never go back. *)
Fixpoint nondecreasing (l : list Z) : Prop :=
  match l with
  | [] => True
  | x :: rest =>
      match rest with
      | [] => True
      | y :: _ => x <= y /\ nondecreasing rest
      end
  end.

(** ** Frames in either byte order *)

(** The [n] low bytes of [v] in the byte order [e]. *)
Definition order_bytes (e : Receiver.Endian) (n : nat) (v : Z) : list byte :=
  match e with
  | Receiver.Big => be_bytes n v
  | Receiver.Little => Sender.le_bytes n v
  end.

(** The frame layout with every field in the byte order [e]. *)
Definition header_layout (e : Receiver.Endian) (n seq ts : Z) : list byte :=
  order_bytes e 4 Receiver.MAGIC_UDPD ++ order_bytes e 2 Receiver.VERSION_1
    ++ order_bytes e 2 n ++ order_bytes e 4 seq ++ order_bytes e 8 ts.

Definition payload_layout (e : Receiver.Endian) (data : list double) : list byte :=
  concat (map (order_bytes e 8) data).

Definition other_order (e : Receiver.Endian) : Receiver.Endian :=
  match e with Receiver.Big => Receiver.Little | Receiver.Little => Receiver.Big end.

(** ** The receiver's socket: start and stop *)

Module ReceiverSocket.

(** What the process holds of the system: the number of [WSAStartup] calls
    not yet undone by [WSACleanup], and the sockets it has open. *)
Record Os := mkOs {
  wsa_users : nat;
  open_sockets : list Z
}.

(** The members of the receiver that [start] and [stop] work on.
    [INVALID_SOCKET] is [None]. *)
Record Handle := mkHandle {
  host_ : string;
  running_ : bool;
  sockfd_ : option Z;
  wsaInitialized_ : bool
}.

Definition construct (host : string) : Handle := mkHandle host false None false.

(** What the system answers to the calls of one [start]. *)
Record StartEnv := mkStartEnv {
  wsa_startup : Z;          (* WSAStartup: 0 when it succeeds *)
  socket_ret : option Z;    (* socket: a handle, or INVALID_SOCKET *)
  ioctl_ret : Z;            (* ioctlsocket(FIONBIO): 0 when it succeeds *)
  inet_pton_ret : Z;        (* inet_pton: 1 when it succeeds *)
  bind_ok : bool            (* bind did not return SOCKET_ERROR *)
}.

Fixpoint remove_one (fd : Z) (l : list Z) : list Z :=
  match l with
  | [] => []
  | x :: rest => if x =? fd then rest else x :: remove_one fd rest
  end.

(** [closesocket(sockfd_); sockfd_ = INVALID_SOCKET;] when a socket is
    held. *)
Definition close_held (h : Handle) (os : Os) : Handle * Os :=
  match sockfd_ h with
  | Some fd =>
      (mkHandle (host_ h) (running_ h) None (wsaInitialized_ h),
       mkOs (wsa_users os) (remove_one fd (open_sockets os)))
  | None => (h, os)
  end.

(** [WSACleanup(); wsaInitialized_ = false;] when Winsock was started. *)
Definition cleanup_wsa (h : Handle) (os : Os) : Handle * Os :=
  if wsaInitialized_ h then
    (mkHandle (host_ h) (running_ h) (sockfd_ h) false,
     mkOs (Nat.pred (wsa_users os)) (open_sockets os))
  else (h, os).

(** [start]: the handle and the system afterwards, and the returned
    flag.  [setsockopt(SO_REUSEADDR)] and a failing [ioctlsocket] change
    nothing here; launching the thread is [running_ = true]. *)
Definition start (env : StartEnv) (h : Handle) (os : Os) : Handle * Os * bool :=
  if running_ h then (h, os, true)
  else if negb (wsa_startup env =? 0) then (h, os, false)
  else
    let os := mkOs (S (wsa_users os)) (open_sockets os) in
    let h := mkHandle (host_ h) (running_ h) (sockfd_ h) true in
    match socket_ret env with
    | None => (mkHandle (host_ h) (running_ h) None true, os, false)
    | Some fd =>
        let h := mkHandle (host_ h) (running_ h) (Some fd) true in
        let os := mkOs (wsa_users os) (fd :: open_sockets os) in
        if negb (String.eqb (host_ h) "0.0.0.0") && negb (inet_pton_ret env =? 1)
        then (h, os, false)
        else if negb (bind_ok env) then (h, os, false)
        else (mkHandle (host_ h) true (Some fd) true, os, true)
    end.

(** [stop]: both branches close the socket and undo [WSAStartup]; the
    second one also clears [running_] and joins the thread. *)
Definition stop (h : Handle) (os : Os) : Handle * Os :=
  if negb (running_ h) then
    let '(h, os) := close_held h os in
    cleanup_wsa h os
  else
    let h := mkHandle (host_ h) false (sockfd_ h) (wsaInitialized_ h) in
    let '(h, os) := close_held h os in
    cleanup_wsa h os.

(** Whether every step of [start] succeeds. *)
Definition setup_succeeds (env : StartEnv) (host : string) : bool :=
  (wsa_startup env =? 0)
  && match socket_ret env with Some _ => true | None => false end
  && (String.eqb host "0.0.0.0" || (inet_pton_ret env =? 1))
  && bind_ok env.

End ReceiverSocket.

(** ** The sender's socket: options and set-up *)

Module SenderSocket.

(** Address families, protocol levels and option names of the socket
    interface, as far as the sender names them. *)
Inductive Family := AF_UNSPEC | AF_INET | AF_INET6 | AF_other (v : Z).
Inductive Level := SOL_SOCKET | IPPROTO_IP | IPPROTO_IPV6.
Inductive OptName :=
| SO_SNDBUF
| IP_TTL | IPV6_UNICAST_HOPS
| IP_MULTICAST_TTL | IPV6_MULTICAST_HOPS
| IP_MULTICAST_LOOP | IPV6_MULTICAST_LOOP
| IP_MULTICAST_IF | IPV6_MULTICAST_IF.

(** One call of [setsockopt]: level, option, value and its size in
    bytes. *)
Record SetSockOpt := mkOpt {
  level : Level;
  optname : OptName;
  optval : Z;
  optlen : Z
}.

(** The sender with the member [family_], which [Sender.State] leaves
    out; it is 0, that is [AF_UNSPEC], when the socket is closed. *)
Record Sock := mkSock {
  sender : Sender.State;
  family_ : Family
}.

Definition closeSock_ (k : Sock) : Sock :=
  mkSock (Sender.closeSock_ (sender k)) AF_UNSPEC.

(** The setters: the [setsockopt] call they make, if any. *)
Definition setUnicastHopLimit (k : Sock) (hops : Z) : option SetSockOpt :=
  if negb (Sender.isOpen_ (sender k)) then None
  else
    let hops := Z.max 0 (Z.min hops 255) in
    match family_ k with
    | AF_INET => Some (mkOpt IPPROTO_IP IP_TTL hops 4)
    | AF_INET6 => Some (mkOpt IPPROTO_IPV6 IPV6_UNICAST_HOPS hops 4)
    | _ => None
    end.

Definition setMulticastHopLimit (k : Sock) (hops : Z) : option SetSockOpt :=
  if negb (Sender.isOpen_ (sender k)) then None
  else
    let hops := Z.max 0 (Z.min hops 255) in
    match family_ k with
    | AF_INET =>
        let ttl := hops mod 2 ^ 8 in       (* (unsigned char)hops *)
        Some (mkOpt IPPROTO_IP IP_MULTICAST_TTL ttl 1)
    | AF_INET6 =>
        let h := hops in
        Some (mkOpt IPPROTO_IPV6 IPV6_MULTICAST_HOPS h 4)
    | _ => None
    end.

Definition setMulticastLoop (k : Sock) (enable : bool) : option SetSockOpt :=
  if negb (Sender.isOpen_ (sender k)) then None
  else
    match family_ k with
    | AF_INET =>
        let v := if enable then 1 else 0 in
        Some (mkOpt IPPROTO_IP IP_MULTICAST_LOOP v 1)
    | AF_INET6 =>
        let v := if enable then 1 else 0 in
        Some (mkOpt IPPROTO_IPV6 IPV6_MULTICAST_LOOP v 4)
    | _ => None
    end.

Definition setMulticastInterfaceIPv4 (k : Sock) (ifAddrNbo : Z) : option SetSockOpt :=
  if negb (Sender.isOpen_ (sender k))
     || negb (match family_ k with AF_INET => true | _ => false end)
  then None
  else Some (mkOpt IPPROTO_IP IP_MULTICAST_IF ifAddrNbo 4).

Definition setMulticastInterfaceIPv6 (k : Sock) (ifIndex : Z) : option SetSockOpt :=
  if negb (Sender.isOpen_ (sender k))
     || negb (match family_ k with AF_INET6 => true | _ => false end)
  then None
  else Some (mkOpt IPPROTO_IPV6 IPV6_MULTICAST_IF ifIndex 4).

(** The system calls of the socket set-up, with what they returned. *)
Inductive SysCall :=
| sys_socket (family : Family) (ret : Z)
| sys_setsockopt (fd : Z) (o : SetSockOpt)
| sys_bind (fd : Z) (family : Family) (port : Z) (ok : bool)
| sys_connect (fd : Z) (ok : bool)
| sys_close (fd : Z).

(** One address [getaddrinfo] returned, with what the system will answer
    for it: the result of [socket] (negative when it fails), whether
    [bind] and [connect] return 0. *)
Record Candidate := mkCandidate {
  ai_family : Family;
  socket_ret : Z;
  bind_ok : bool;
  connect_ok : bool
}.

(** [bindLocal_(s, family, localPort)]: the returned flag and the call
    made. *)
Definition bindLocal_ (s : Z) (family : Family) (localPort : Z) (ok : bool)
  : bool * list SysCall :=
  if localPort =? 0 then (true, [])
  else
    match family with
    | AF_INET => (ok, [sys_bind s AF_INET localPort ok])
    | AF_INET6 => (ok, [sys_bind s AF_INET6 localPort ok])
    | _ => (false, [])
    end.

(** The loop of [createAndConfigureSocket_] over the addresses: the calls
    made, and the descriptor and family kept, if any. *)
Fixpoint try_addresses (connect_ : bool) (localPort requestedSndBuf : Z)
    (res : list Candidate) : list SysCall * option (Z * Family) :=
  match res with
  | [] => ([], None)
  | ai :: rest =>
      let s := socket_ret ai in
      if s <? 0 then
        let '(calls, kept) := try_addresses connect_ localPort requestedSndBuf rest in
        (sys_socket (ai_family ai) s :: calls, kept)
      else
        let opened :=
          sys_socket (ai_family ai) s
            :: (if requestedSndBuf >? 0
                then [sys_setsockopt s (mkOpt SOL_SOCKET SO_SNDBUF requestedSndBuf 4)]
                else []) in
        let '(bound, binds) := bindLocal_ s (ai_family ai) localPort (bind_ok ai) in
        if negb bound then
          let '(calls, kept) := try_addresses connect_ localPort requestedSndBuf rest in
          (opened ++ binds ++ sys_close s :: calls, kept)
        else if connect_ then
          if negb (connect_ok ai) then
            let '(calls, kept) := try_addresses connect_ localPort requestedSndBuf rest in
            (opened ++ binds ++ sys_connect s false :: sys_close s :: calls, kept)
          else (opened ++ binds ++ [sys_connect s true], Some (s, ai_family ai))
        else (opened ++ binds, Some (s, ai_family ai))
  end.

(** [createAndConfigureSocket_]: [gai_rc] and [res] are what [getaddrinfo]
    returned, [gai_text] the text of [gai_strerror(rc)].  The result is the
    message of the exception thrown, or the new [sock_] and [family_]. *)
Definition createAndConfigureSocket_ (connect_ : bool) (localPort requestedSndBuf : Z)
    (gai_rc : Z) (gai_text : string) (res : list Candidate)
  : list SysCall * (string + Z * Family) :=
  if negb (gai_rc =? 0) || match res with [] => true | _ => false end
  then ([], inl ("getaddrinfo failed: " ++ gai_text)%string)
  else
    match try_addresses connect_ localPort requestedSndBuf res with
    | (calls, Some kept) => (calls, inr kept)
    | (calls, None) =>
        (calls, inl "Failed to create usable UDP socket for any resolved address"%string)
    end.

(** The sockets a run of calls leaves open, [held] being those open
    before it. *)
Fixpoint left_open (calls : list SysCall) (held : list Z) : list Z :=
  match calls with
  | [] => held
  | sys_socket _ s :: rest => left_open rest (if s <? 0 then held else s :: held)
  | sys_close s :: rest => left_open rest (ReceiverSocket.remove_one s held)
  | _ :: rest => left_open rest held
  end.

(** An address the loop can keep. *)
Definition usable (connect_ : bool) (localPort : Z) (ai : Candidate) : bool :=
  negb (socket_ret ai <? 0)
  && ((localPort =? 0)
      || (match ai_family ai with AF_INET | AF_INET6 => true | _ => false end
          && bind_ok ai))
  && (negb connect_ || connect_ok ai).

(** The whole constructor: socket set-up, then the object. *)
Definition construct (maxDoubles : Z) (connectUdp : bool) (maxPayloadBytes : Z)
    (localPort requestedSndBuf : Z) (now : Z)
    (gai_rc : Z) (gai_text : string) (res : list Candidate)
  : list SysCall * Sender.Outcome Sock :=
  let '(calls, made) :=
    createAndConfigureSocket_ connectUdp localPort requestedSndBuf gai_rc gai_text res in
  match made with
  | inl what => (calls, Sender.RuntimeError what)
  | inr (fd, family) =>
      match Sender.construct maxDoubles connectUdp maxPayloadBytes now (inr fd) with
      | Sender.Returned s => (calls, Sender.Returned (mkSock s family))
      | Sender.InvalidArgument what => (calls, Sender.InvalidArgument what)
      | Sender.RuntimeError what => (calls, Sender.RuntimeError what)
      end
  end.

End SenderSocket.

(** ** More sample data *)

(** A start in which every call succeeds, and one in which [bind] fails. *)
Definition good_start : ReceiverSocket.StartEnv :=
  ReceiverSocket.mkStartEnv 0 (Some 100) 0 1 true.

Definition bind_fails : ReceiverSocket.StartEnv :=
  ReceiverSocket.mkStartEnv 0 (Some 100) 0 1 false.

(** Three addresses: no socket for the first, [connect] fails for the
    second, the third works. *)
Definition three_addresses : list SenderSocket.Candidate :=
  [SenderSocket.mkCandidate SenderSocket.AF_INET6 (-1) true true;
   SenderSocket.mkCandidate SenderSocket.AF_INET6 4 true false;
   SenderSocket.mkCandidate SenderSocket.AF_INET 4 true true].

(** ** Ownership of the sender's socket *)

Module SenderOwnership.

(** [closeSock_] with the [::close] call it makes, if any. *)
Definition closeSock_ (s : Sender.State) : Sender.State * list Z :=
  if Sender.sock_ s >=? 0
  then (Sender.closeSock_ s, [Sender.sock_ s])
  else (Sender.closeSock_ s, []).

(** [moveFrom_(o)]: the object built from [o], and [o] afterwards, closed;
    [leftover] is what the moved-from vector holds. *)
Definition moveFrom_ (o : Sender.State) (leftover : list byte)
  : Sender.State * Sender.State :=
  (Sender.mkState (Sender.sock_ o) (Sender.connect_ o) (Sender.maxDoubles_ o)
     (Sender.seq_ o) (Sender.buffer_ o) (Sender.tsOffset_ o),
   Sender.mkState (-1) (Sender.connect_ o) (Sender.maxDoubles_ o)
     (Sender.seq_ o) leftover (Sender.tsOffset_ o)).

(** The move constructor. *)
Definition move_construct (other : Sender.State) (leftover : list byte)
  : Sender.State * Sender.State :=
  moveFrom_ other leftover.

(** Move assignment between two different objects: [this] is closed
    first.  The result is [this], [other] and the [::close] calls made. *)
Definition move_assign (this other : Sender.State) (leftover : list byte)
  : Sender.State * Sender.State * list Z :=
  let '(_, closes) := closeSock_ this in
  let '(this, other) := moveFrom_ other leftover in
  (this, other, closes).

(** The destructor: the [::close] calls it makes. *)
Definition destroy (s : Sender.State) : list Z := snd (closeSock_ s).

End SenderOwnership.

(** ** The loop when a failing [recvfrom] has written to the buffer *)

Module RecvLoop.
Import Receiver.

(** What one call of [recvfrom] did, with what it left in the buffer.
    Winsock's [recvfrom] stores the start of a datagram that is larger
    than the buffer and then fails with [WSAEMSGSIZE]; for the other
    errors [written] is empty. *)
Inductive Recv :=
| Failed (err : Z) (written : list byte)   (* SOCKET_ERROR *)
| Got (bytes : list byte).                 (* the datagram; its length is returned *)

(** The bytes [recvfrom] stored at the start of [recvBuffer_]. *)
Definition stored (res : Recv) : list byte :=
  match res with
  | Failed _ written => written
  | Got bytes => bytes
  end.

(** The same call as [Receiver.run_iteration] sees it. *)
Definition plain (res : Recv) : RecvResult :=
  match res with
  | Failed err _ => SocketError err
  | Got bytes => Received bytes
  end.

(** One turn of the loop of [run]; as [Receiver.run_iteration], but the
    buffer holds what [recvfrom] stored also when it failed. *)
Definition run_iteration (r : State) (stopped : bool) (res : Recv) : State :=
  let r := set_recvBuffer r (memcpy (recvBuffer_ r) 0 (stored res)) in
  if stopped then set_running r false
  else
    match res with
    | Failed _ _ => r
    | Got d =>
        match decode (endian_ r) (recvBuffer_ r) (Z.of_nat (length d)) with
        | None => r
        | Some pkt => publish r pkt
        end
    end.

Fixpoint run (r : State) (turns : list (bool * Recv)) : State :=
  match turns with
  | [] => r
  | (stopped, res) :: rest =>
      if running_ r then run (run_iteration r stopped res) rest else r
  end.

(** A turn in which [recvfrom] fails and [stop] has not been called. *)
Definition is_failure (t : bool * Recv) : bool :=
  match t with
  | (false, Failed _ _) => true
  | _ => false
  end.

End RecvLoop.

(** What the loop shows to the other threads: the slot, the has-data flag
    and [running_], with the configured byte order. *)
Definition published (r : Receiver.State)
  : Receiver.Packet * bool * bool * Receiver.Endian :=
  (Receiver.latest_ r, Receiver.hasData_ r, Receiver.running_ r, Receiver.endian_ r).

(** ** Predicates used in the statements below *)

(** The datagrams of a run that fit a buffer of [n] bytes. *)
Definition fits (n : nat) (t : bool * Receiver.RecvResult) : Prop :=
  match snd t with
  | Receiver.Received d => (length d <= n)%nat
  | Receiver.SocketError _ => True
  end.

(** What a call keeps of the sender [s0] it is made on, and the size of
    what it emits. *)
Definition kept (s0 : Sender.State) (r : Sender.Sent) : Prop :=
  sender_wf (Sender.after r) /\
  Sender.maxDoubles_ (Sender.after r) = Sender.maxDoubles_ s0 /\
  Sender.tsOffset_ (Sender.after r) = Sender.tsOffset_ s0 /\
  Sender.connect_ (Sender.after r) = Sender.connect_ s0 /\
  forall d, Sender.wire r = Some d ->
    exists count, 0 < count <= Sender.maxDoubles_ s0 /\
      wire_count d = u16 count /\
      Z.of_nat (length d) = 20 + 8 * u16 count.

Definition is_auto (c : Sender.Env * Sender.Call) : bool :=
  match snd c with Sender.CallSendAutoSeq _ _ => true | _ => false end.

(** The number of [sendAutoSeq] calls among [calls]. *)
Definition count_auto (calls : list (Sender.Env * Sender.Call)) : nat :=
  length (filter is_auto calls).

(** The sender after all of [calls]. *)
Definition final_state (h : Sender.HostOrder) (s : Sender.State)
    (calls : list (Sender.Env * Sender.Call)) : Sender.State :=
  last (map Sender.after (Sender.lifetime h s calls)) s.

(** The calls the five setters make for given arguments. *)
Definition setter_calls (k : SenderSocket.Sock) (hops : Z) (enable : bool)
    (ifAddrNbo ifIndex : Z) : list (option SenderSocket.SetSockOpt) :=
  [SenderSocket.setUnicastHopLimit k hops;
   SenderSocket.setMulticastHopLimit k hops;
   SenderSocket.setMulticastLoop k enable;
   SenderSocket.setMulticastInterfaceIPv4 k ifAddrNbo;
   SenderSocket.setMulticastInterfaceIPv6 k ifIndex].

(** Whether option [o] belongs to the protocol of the family [f]. *)
Definition level_matches (f : SenderSocket.Family) (o : SenderSocket.SetSockOpt) : Prop :=
  match f with
  | SenderSocket.AF_INET => SenderSocket.level o = SenderSocket.IPPROTO_IP
  | SenderSocket.AF_INET6 => SenderSocket.level o = SenderSocket.IPPROTO_IPV6
  | _ => False
  end.

Definition is_connect (c : SenderSocket.SysCall) : bool :=
  match c with SenderSocket.sys_connect _ _ => true | _ => false end.

Definition is_bind (c : SenderSocket.SysCall) : bool :=
  match c with SenderSocket.sys_bind _ _ _ _ => true | _ => false end.

(** What [createAndConfigureSocket_] is to return for the answers [res]:
    the first usable address, if [getaddrinfo] succeeded. *)
Definition expected_socket (connect_ : bool) (localPort gai_rc : Z) (gai_text : string)
    (res : list SenderSocket.Candidate) : string + Z * SenderSocket.Family :=
  if negb (gai_rc =? 0) || match res with [] => true | _ => false end
  then inl ("getaddrinfo failed: " ++ gai_text)%string
  else
    match find (SenderSocket.usable connect_ localPort) res with
    | Some ai => inr (SenderSocket.socket_ret ai, SenderSocket.ai_family ai)
    | None => inl "Failed to create usable UDP socket for any resolved address"%string
    end.

(** A turn in which [recvfrom] fails and [stop] has not been called. *)
Definition is_receive_error (t : bool * Receiver.RecvResult) : bool :=
  match t with
  | (false, Receiver.SocketError _) => true
  | _ => false
  end.

(** * Proofs *)

(** ** Bit-level tactics *)

(** The byte masks of the source, as shifted runs of ones. *)
Ltac unmask :=
  change 0xFF with (Z.ones 8) in *;
  change 0xFF00 with (Z.shiftl (Z.ones 8) 8) in *;
  change 0xFF0000 with (Z.shiftl (Z.ones 8) 16) in *;
  change 0xFF000000 with (Z.shiftl (Z.ones 8) 24) in *;
  change 0xFF00000000 with (Z.shiftl (Z.ones 8) 32) in *;
  change 0xFF0000000000 with (Z.shiftl (Z.ones 8) 40) in *;
  change 0xFF000000000000 with (Z.shiftl (Z.ones 8) 48) in *;
  change 0xFF00000000000000 with (Z.shiftl (Z.ones 8) 56) in *.

(** Decide every comparison the hypotheses settle. *)
Ltac solve_cmp :=
  repeat match goal with
  | |- context [?a <? ?b] =>
      first [ replace (a <? b) with true by (symmetry; apply Z.ltb_lt; lia)
            | replace (a <? b) with false by (symmetry; apply Z.ltb_ge; lia) ]
  end.

Ltac simpl_bool :=
  repeat (progress (cbn [andb orb negb];
                    rewrite ?orb_false_r, ?andb_true_r, ?andb_false_r)).

Ltac push_testbit :=
  repeat first
    [ rewrite Z.lor_spec | rewrite Z.land_spec
    | rewrite Z.shiftl_spec' | rewrite Z.shiftr_spec'
    | rewrite Z.testbit_mod_pow2 by lia
    | rewrite Z.testbit_ones_nonneg' by lia
    | rewrite Z.testbit_0_l ].

Ltac finish_bits := solve_cmp; simpl_bool; try reflexivity; try (f_equal; lia).

Ltac split_at i n := destruct (Z_lt_le_dec i n); [ finish_bits | ].

(** Equality of two numbers bit by bit, one byte lane at a time. *)
Ltac bits_bytewise :=
  apply Z.bits_inj'; intros ?i ?Hi;
  match goal with
  | i : Z |- _ =>
      push_testbit;
      split_at i 8; split_at i 16; split_at i 24; split_at i 32;
      split_at i 40; split_at i 48; split_at i 56; split_at i 64;
      finish_bits
  end.

Lemma byte_of_Z_eq (a b : Z) : a mod 2 ^ 8 = b mod 2 ^ 8 -> byte.of_Z a = byte.of_Z b.
Proof.
  intros H. apply byte.unsigned_inj. rewrite !byte.unsigned_of_Z. exact H.
Qed.

(** Equality of two explicit byte lists, byte by byte. *)
Ltac bytes_eq :=
  repeat (f_equal;
          try (apply byte_of_Z_eq; unfold u16, u32, u64; unmask; bits_bytewise)).

(** ** What the write helpers put in memory *)

Lemma be16_wire h v :
  Sender.object_bytes h 2 (Sender.htons h v) = be_bytes 2 v.
Proof.
  destruct h; cbn [Sender.object_bytes Sender.htons Sender.le_bytes be_bytes rev app];
    bytes_eq.
Qed.

Lemma be32_wire h v :
  Sender.object_bytes h 4 (Sender.htonl h v) = be_bytes 4 v.
Proof.
  destruct h; cbn [Sender.object_bytes Sender.htonl Sender.le_bytes be_bytes rev app];
    bytes_eq.
Qed.

Lemma be64_wire h v :
  Sender.object_bytes h 8 (Sender.hostToBE64_ h v) = be_bytes 8 v.
Proof.
  unfold Sender.hostToBE64_.
  destruct h;
    [ change (Sender.isLittleEndian_ Sender.HostLittle) with true
    | change (Sender.isLittleEndian_ Sender.HostBig) with false ];
    cbv iota; unfold Sender.bswap64_;
    cbn [Sender.object_bytes Sender.le_bytes be_bytes rev app];
    bytes_eq.
Qed.

Lemma be_bytes_u32 v : be_bytes 4 (u32 v) = be_bytes 4 v.
Proof. cbn [Sender.le_bytes be_bytes rev app]; bytes_eq. Qed.

Lemma be_bytes_u64 v : be_bytes 8 (u64 v) = be_bytes 8 v.
Proof. cbn [Sender.le_bytes be_bytes rev app]; bytes_eq. Qed.

Lemma length_le_bytes n v : length (Sender.le_bytes n v) = n.
Proof. revert v; induction n; intros; cbn; auto. Qed.

Lemma length_be_bytes n v : length (be_bytes n v) = n.
Proof. unfold be_bytes. rewrite length_rev. apply length_le_bytes. Qed.

(** ** What the read helpers make of big-endian bytes *)

Lemma read16_be p v : Receiver.read16 (be_bytes 2 v ++ p) Receiver.Big = u16 v.
Proof.
  cbn [be_bytes Sender.le_bytes rev app]. unfold Receiver.read16, idx. cbn [nth].
  rewrite !byte.unsigned_of_Z. unfold byte.wrap, u16.
  bits_bytewise.
Qed.

Lemma read32_be p v : Receiver.read32 (be_bytes 4 v ++ p) Receiver.Big = u32 v.
Proof.
  cbn [be_bytes Sender.le_bytes rev app]. unfold Receiver.read32, idx. cbn [nth].
  rewrite !byte.unsigned_of_Z. unfold byte.wrap, u32.
  bits_bytewise.
Qed.

Lemma read64_be p v : Receiver.read64 (be_bytes 8 v ++ p) Receiver.Big = u64 v.
Proof.
  cbn [be_bytes Sender.le_bytes rev app].
  unfold Receiver.read64, Receiver.read64_step, idx. cbn [nth fold_left].
  rewrite !byte.unsigned_of_Z. unfold byte.wrap, u64.
  bits_bytewise.
Qed.

(** ** Buffers *)

Section Buffers.
Variables (buf src : list byte) (off : nat).

Lemma memcpy_length :
  (off + length src <= length buf)%nat ->
  length (memcpy buf off src) = length buf.
Proof.
  intros H. unfold memcpy.
  rewrite !length_app, length_firstn, length_skipn. lia.
Qed.

Lemma memcpy_firstn :
  (off <= length buf)%nat ->
  firstn (off + length src) (memcpy buf off src) = firstn off buf ++ src.
Proof.
  intros H. unfold memcpy.
  rewrite app_assoc.
  rewrite firstn_app.
  rewrite length_app, length_firstn.
  replace (off + length src - (Nat.min off (length buf) + length src))%nat with 0%nat by lia.
  rewrite firstn_O, app_nil_r.
  apply firstn_all2. rewrite length_app, length_firstn. lia.
Qed.

Lemma memcpy_0 : memcpy buf 0 src = src ++ skipn (length src) buf.
Proof. reflexivity. Qed.
End Buffers.

Lemma idx_skipn p k j : idx (skipn k p) j = idx p (k + j).
Proof.
  unfold idx. f_equal. revert p; induction k; intros p; [reflexivity|].
  destruct p; cbn [skipn Nat.add nth]; [destruct j; reflexivity | apply IHk].
Qed.

Lemma idx_app_l d r i : (i < length d)%nat -> idx (d ++ r) i = idx d i.
Proof. intros H. unfold idx. now rewrite app_nth1. Qed.


Lemma agree_skipn_app n k d r :
  (k + n <= length d)%nat -> agree n (skipn k (d ++ r)) (skipn k d).
Proof.
  intros H j Hj. rewrite !idx_skipn. apply idx_app_l. lia.
Qed.

Lemma read16_agree p q e : agree 2 p q -> Receiver.read16 p e = Receiver.read16 q e.
Proof.
  intros H. unfold Receiver.read16.
  rewrite (H 0%nat), (H 1%nat) by lia. reflexivity.
Qed.

Lemma read32_agree p q e : agree 4 p q -> Receiver.read32 p e = Receiver.read32 q e.
Proof.
  intros H. unfold Receiver.read32.
  rewrite (H 0%nat), (H 1%nat), (H 2%nat), (H 3%nat) by lia. reflexivity.
Qed.

Lemma read64_agree p q e : agree 8 p q -> Receiver.read64 p e = Receiver.read64 q e.
Proof.
  intros H. unfold Receiver.read64, Receiver.read64_step. cbn [fold_left].
  rewrite (H 0%nat), (H 1%nat), (H 2%nat), (H 3%nat),
          (H 4%nat), (H 5%nat), (H 6%nat), (H 7%nat) by lia.
  reflexivity.
Qed.

Lemma read16_range p e : 0 <= Receiver.read16 p e < 2 ^ 16.
Proof. destruct e; apply Z.mod_pos_bound; lia. Qed.

(** The decoding step reads nothing beyond the [received] bytes: what an
    earlier, longer datagram left in the buffer has no effect. *)
Lemma decode_stale e d r :
  Receiver.decode e (d ++ r) (Z.of_nat (length d)) =
  Receiver.decode e d (Z.of_nat (length d)).
Proof.
  unfold Receiver.decode, Receiver.HEADER_BYTES.
  destruct (Z.ltb_spec (Z.of_nat (length d)) 20) as [Hs | Hl]; [reflexivity|].
  rewrite (read32_agree (skipn 0 (d ++ r)) (skipn 0 d)) by (apply agree_skipn_app; lia).
  rewrite (read16_agree (skipn 4 (d ++ r)) (skipn 4 d)) by (apply agree_skipn_app; lia).
  rewrite (read16_agree (skipn 6 (d ++ r)) (skipn 6 d)) by (apply agree_skipn_app; lia).
  rewrite (read32_agree (skipn 8 (d ++ r)) (skipn 8 d)) by (apply agree_skipn_app; lia).
  rewrite (read64_agree (skipn 12 (d ++ r)) (skipn 12 d)) by (apply agree_skipn_app; lia).
  destruct (negb _); [reflexivity|].
  destruct (negb _); [reflexivity|].
  pose proof (read16_range (skipn 6 d) e) as Hc.
  destruct (Z.gtb_spec (20 + Receiver.read16 (skipn 6 d) e * 8) (Z.of_nat (length d)))
    as [Hg | Hle]; [reflexivity|].
  do 2 f_equal. apply map_ext_in. intros i Hi. apply in_seq in Hi.
  unfold Receiver.readDouble. apply read64_agree.
  intros j Hj. rewrite !idx_skipn. apply idx_app_l. lia.
Qed.

(** ** The receive loop *)

Module ReceiverFacts.
Import Receiver.

(** A loop turn that is not interrupted by [stop] and receives [d]. *)
Lemma run_iteration_received r d :
  run_iteration r false (Received d) =
  let r' := set_recvBuffer r (memcpy (recvBuffer_ r) 0 d) in
  match decode (endian_ r) d (Z.of_nat (length d)) with
  | None => r'
  | Some pkt => publish r' pkt
  end.
Proof.
  unfold run_iteration. cbn [recvBuffer_ endian_ set_recvBuffer].
  rewrite memcpy_0, decode_stale. reflexivity.
Qed.

(** Every turn that receives stores the datagram at the start of the
    buffer. *)
Lemma recvBuffer_received r stopped d :
  recvBuffer_ (run_iteration r stopped (Received d)) = memcpy (recvBuffer_ r) 0 d.
Proof.
  unfold run_iteration. destruct stopped; [reflexivity|].
  destruct (decode _ _ _); reflexivity.
Qed.

(** A datagram the decoding step rejects leaves the slot alone, whether
    or not the turn was interrupted. *)
Lemma dropped_keeps_slot r stopped d :
  decode (endian_ r) d (Z.of_nat (length d)) = None ->
  latest_ (run_iteration r stopped (Received d)) = latest_ r /\
  hasData_ (run_iteration r stopped (Received d)) = hasData_ r.
Proof.
  intros H. destruct stopped.
  - split; reflexivity.
  - rewrite run_iteration_received, H. split; reflexivity.
Qed.

Lemma decode_short e d received : received < 20 -> decode e d received = None.
Proof.
  intros H. unfold decode, HEADER_BYTES.
  destruct (Z.ltb_spec received 20); [reflexivity | lia].
Qed.

Lemma decode_bad_magic e d received :
  read32 d e <> MAGIC_UDPD -> decode e d received = None.
Proof.
  intros H. unfold decode. destruct (_ <? _); [reflexivity|].
  change (skipn 0 d) with d.
  destruct (Z.eqb_spec (read32 d e) MAGIC_UDPD); [contradiction | reflexivity].
Qed.

Lemma decode_bad_version e d received :
  read16 (skipn 4 d) e <> VERSION_1 -> decode e d received = None.
Proof.
  intros H. unfold decode. destruct (_ <? _); [reflexivity|].
  destruct (negb (_ =? MAGIC_UDPD)); [reflexivity|].
  destruct (Z.eqb_spec (read16 (skipn 4 d) e) VERSION_1); [contradiction | reflexivity].
Qed.

Lemma decode_truncated e d received :
  HEADER_BYTES + read16 (skipn 6 d) e * 8 > received -> decode e d received = None.
Proof.
  intros H. unfold decode. destruct (_ <? _); [reflexivity|].
  destruct (negb (_ =? MAGIC_UDPD)); [reflexivity|].
  destruct (negb (_ =? VERSION_1)); [reflexivity|].
  destruct (Z.gtb_spec (HEADER_BYTES + read16 (skipn 6 d) e * 8) received);
    [reflexivity | lia].
Qed.

(** The accepted case, spelled out. *)
Lemma decode_accepts e d received :
  20 <= received ->
  read32 d e = MAGIC_UDPD ->
  read16 (skipn 4 d) e = VERSION_1 ->
  20 + read16 (skipn 6 d) e * 8 <= received ->
  decode e d received =
  Some (mkPacket (read32 (skipn 8 d) e) (read64 (skipn 12 d) e)
          (map (fun i => readDouble (skipn (i * 8) (skipn 20 d)) e)
               (List.seq 0 (Z.to_nat (read16 (skipn 6 d) e))))).
Proof.
  intros Hlen Hm Hv Hc. unfold decode, HEADER_BYTES. change (skipn 0 d) with d.
  destruct (Z.ltb_spec received 20); [lia|].
  rewrite Hm, Hv, !Z.eqb_refl. cbn [negb].
  destruct (Z.gtb_spec (20 + read16 (skipn 6 d) e * 8) received); [lia | reflexivity].
Qed.

(** The loop never clears the flag, and while the flag is clear the slot
    still holds what it held. *)
Lemma run_iteration_hasData r stopped res :
  hasData_ r = true -> hasData_ (run_iteration r stopped res) = true.
Proof.
  intros H. unfold run_iteration.
  destruct res, stopped; cbn; auto.
  destruct (decode _ _ _); cbn; auto.
Qed.

Lemma run_hasData r turns : hasData_ r = true -> hasData_ (run r turns) = true.
Proof.
  revert r; induction turns as [|[stopped res] rest IH]; intros r H; cbn [run]; auto.
  destruct (running_ r); auto. apply IH, run_iteration_hasData, H.
Qed.

Lemma run_iteration_nothing_stored r stopped res :
  hasData_ (run_iteration r stopped res) = false ->
  latest_ (run_iteration r stopped res) = latest_ r /\ hasData_ r = false.
Proof.
  unfold run_iteration.
  destruct res, stopped; cbn; auto.
  destruct (decode _ _ _); cbn; auto. discriminate.
Qed.

Lemma run_nothing_stored r turns :
  hasData_ (run r turns) = false ->
  latest_ (run r turns) = latest_ r /\ hasData_ r = false.
Proof.
  revert r; induction turns as [|[stopped res] rest IH]; intros r H; cbn [run] in *; auto.
  destruct (running_ r); auto.
  destruct (IH _ H) as [H1 H2].
  destruct (run_iteration_nothing_stored _ _ _ H2) as [H3 H4].
  split; congruence.
Qed.

End ReceiverFacts.

(** ** The bytes the encoding step writes *)

Module SenderFacts.
Import Sender.

Lemma length_header_bytes n seq ts : length (header_bytes n seq ts) = 20%nat.
Proof. reflexivity. Qed.

Lemma length_payload_bytes data : length (payload_bytes data) = (8 * length data)%nat.
Proof.
  unfold payload_bytes. induction data as [|d data IH]; [reflexivity|].
  cbn [map concat]. rewrite length_app, IH, length_be_bytes. cbn [length]. lia.
Qed.

Lemma read_data_all data : read_data data (length data) = data.
Proof.
  unfold read_data. induction data as [|d data IH]; [reflexivity|].
  cbn [length List.seq map nth]. f_equal.
  rewrite <- seq_shift, map_map. exact IH.
Qed.

Lemma read_data_S data k : read_data data (S k) = read_data data k ++ [nth k data 0].
Proof. unfold read_data. rewrite seq_S, map_app. reflexivity. Qed.

Lemma writeDoubleBE_memcpy h buf off d :
  writeDoubleBE_ h buf off d = memcpy buf off (be_bytes 8 d).
Proof. unfold writeDoubleBE_. cbv zeta. now rewrite be64_wire, be_bytes_u64. Qed.

(** The payload loop after [k] turns. *)
Lemma payload_loop h (data : list double) buf k :
  (20 + 8 * k <= length buf)%nat ->
  let buf' :=
    fold_left (fun b i => writeDoubleBE_ h b (20 + i * 8) (nth i data 0))
              (List.seq 0 k) buf in
  length buf' = length buf /\
  firstn (20 + 8 * k) buf' = firstn 20 buf ++ payload_bytes (read_data data k).
Proof.
  induction k as [|k IH]; intros Hlen; cbv zeta.
  - cbn [List.seq fold_left]. split; [reflexivity|].
    rewrite Nat.mul_0_r, Nat.add_0_r. unfold payload_bytes, read_data. cbn.
    now rewrite app_nil_r.
  - rewrite seq_S, fold_left_app. cbn [fold_left]. rewrite Nat.add_0_l.
    destruct IH as [IHl IHf]; [lia|].
    set (b := fold_left _ (List.seq 0 k) buf) in *.
    rewrite writeDoubleBE_memcpy. split.
    + rewrite memcpy_length; [exact IHl | rewrite length_be_bytes; lia].
    + replace (20 + 8 * S k)%nat with ((20 + k * 8) + length (be_bytes 8 (nth k data 0%Z)))%nat
        by (rewrite length_be_bytes; lia).
      rewrite memcpy_firstn by lia.
      replace (20 + k * 8)%nat with (20 + 8 * k)%nat by lia.
      rewrite IHf, read_data_S. unfold payload_bytes.
      rewrite map_app, concat_app. cbn [map concat].
      now rewrite app_nil_r, app_assoc.
Qed.

(** The header writes. *)
Lemma header_writes h buf n seq ts :
  (20 <= length buf)%nat ->
  let b := writeBE32u_ h buf 0 MAGIC in
  let b := writeBE16_ h b 4 VERSION in
  let b := writeBE16_ h b 6 n in
  let b := writeBE32_fromBits_ h b 8 seq in
  let b := writeBE64_fromBits_ h b 12 ts in
  length b = length buf /\ firstn 20 b = header_bytes n seq ts.
Proof.
  intros Hlen. cbv zeta.
  unfold writeBE64_fromBits_, writeBE32_fromBits_, writeBE32u_, writeBE16_. cbv zeta.
  rewrite !be16_wire, !be32_wire, be64_wire, be_bytes_u32, be_bytes_u64.
  set (b1 := memcpy buf 0 _).
  set (b2 := memcpy b1 4 _).
  set (b3 := memcpy b2 6 _).
  set (b4 := memcpy b3 8 _).
  assert (L1 : length b1 = length buf)
    by (apply memcpy_length; rewrite length_be_bytes; lia).
  assert (L2 : length b2 = length buf)
    by (unfold b2; rewrite memcpy_length; rewrite ?length_be_bytes; lia).
  assert (L3 : length b3 = length buf)
    by (unfold b3; rewrite memcpy_length; rewrite ?length_be_bytes; lia).
  assert (L4 : length b4 = length buf)
    by (unfold b4; rewrite memcpy_length; rewrite ?length_be_bytes; lia).
  split; [rewrite memcpy_length; rewrite ?length_be_bytes; lia|].
  change 20%nat with (12 + length (be_bytes 8 ts))%nat.
  rewrite memcpy_firstn by lia. unfold b4.
  change 12%nat with (8 + length (be_bytes 4 seq))%nat.
  rewrite memcpy_firstn by lia. unfold b3.
  change 8%nat with (6 + length (be_bytes 2 n))%nat.
  rewrite memcpy_firstn by lia. unfold b2.
  change 6%nat with (4 + length (be_bytes 2 VERSION))%nat.
  rewrite memcpy_firstn by lia. unfold b1.
  change 4%nat with (0 + length (be_bytes 4 MAGIC))%nat.
  rewrite memcpy_firstn by lia.
  unfold header_bytes. cbn [firstn]. rewrite <- !app_assoc. reflexivity.
Qed.

(** The encoding step, as bytes: the datagram is the 20-byte header and
    the first [n] doubles, [n] being the count reduced to 16 bits. *)
Lemma encodeFrame_wire h buf data count seq ts :
  (20 + 8 * Z.to_nat (u16 count) <= length buf)%nat ->
  let '(buf', bytes) := encodeFrame h buf data count seq ts in
  bytes = 20 + u16 count * 8 /\
  length buf' = length buf /\
  firstn (Z.to_nat bytes) buf' =
    header_bytes (u16 count) seq ts
      ++ payload_bytes (read_data data (Z.to_nat (u16 count))).
Proof.
  intros Hlen. unfold encodeFrame. cbv zeta.
  pose proof (header_writes h buf (u16 count) seq ts ltac:(lia)) as Hh.
  cbv zeta in Hh. destruct Hh as [Hl Hf].
  set (b5 := writeBE64_fromBits_ _ _ _ _) in *.
  pose proof (payload_loop h data b5 (Z.to_nat (u16 count)) ltac:(lia)) as Hp.
  cbv zeta in Hp. destruct Hp as [Hpl Hpf].
  split; [reflexivity|]. split; [congruence|].
  assert (0 <= u16 count) by (apply Z.mod_pos_bound; lia).
  replace (Z.to_nat (HEADER_BYTES + u16 count * 8))
    with (20 + 8 * Z.to_nat (u16 count))%nat by (unfold HEADER_BYTES; lia).
  rewrite Hpf, Hf. reflexivity.
Qed.

End SenderFacts.

(** ** Reading a frame laid out big-endian *)

Module CodecFacts.
Import Receiver.

Lemma readDouble_payload ds r i :
  (i < length ds)%nat ->
  readDouble (skipn (i * 8) (payload_bytes ds ++ r)) Big = u64 (nth i ds 0).
Proof.
  revert i; induction ds as [|d ds IH]; intros i Hi; cbn [length] in Hi; [lia|].
  unfold payload_bytes. cbn [map concat]. rewrite <- app_assoc.
  destruct i as [|i].
  - cbn [Nat.mul skipn nth]. apply read64_be.
  - change (skipn (S i * 8) (be_bytes 8 d ++ concat (map (be_bytes 8) ds) ++ r))
      with (skipn (i * 8) (payload_bytes ds ++ r)).
    cbn [nth]. apply IH. lia.
Qed.

Lemma u64_double d : is_double d -> u64 d = d.
Proof. intros H. apply Z.mod_small, H. Qed.

Lemma map_u64_doubles ds : Forall is_double ds -> map u64 ds = ds.
Proof.
  induction 1 as [|d ds Hd _ IH]; [reflexivity|].
  cbn [map]. now rewrite IH, u64_double.
Qed.

(** A frame laid out big-endian with [n] doubles decodes to those
    doubles and to the low 32 and 64 bits of sequence and time stamp,
    whatever follows it in the buffer. *)
Lemma skipn_be_bytes n k v (r : list byte) :
  skipn (n + k) (be_bytes n v ++ r) = skipn k r.
Proof.
  rewrite skipn_app, length_be_bytes.
  replace (n + k - n)%nat with k by lia.
  rewrite (skipn_all2 (be_bytes n v)) by (rewrite length_be_bytes; lia).
  reflexivity.
Qed.

(** The offsets of the header fields. *)
Lemma header_offsets n seq ts (r : list byte) :
  let d := header_bytes n seq ts ++ r in
  d = be_bytes 4 Sender.MAGIC ++ be_bytes 2 Sender.VERSION ++ be_bytes 2 n
        ++ be_bytes 4 seq ++ be_bytes 8 ts ++ r /\
  skipn 4 d = be_bytes 2 Sender.VERSION ++ be_bytes 2 n ++ be_bytes 4 seq ++ be_bytes 8 ts ++ r /\
  skipn 6 d = be_bytes 2 n ++ be_bytes 4 seq ++ be_bytes 8 ts ++ r /\
  skipn 8 d = be_bytes 4 seq ++ be_bytes 8 ts ++ r /\
  skipn 12 d = be_bytes 8 ts ++ r /\
  skipn 20 d = r.
Proof.
  cbv zeta. unfold header_bytes. rewrite <- !app_assoc.
  repeat split.
Qed.

(** A frame laid out big-endian with [n] doubles decodes to those
    doubles and to the low 32 and 64 bits of sequence and time stamp,
    whatever follows it in the buffer. *)
Lemma decode_layout n seq ts ds r received :
  0 <= n < 2 ^ 16 -> length ds = Z.to_nat n -> 20 + n * 8 <= received ->
  decode Big (header_bytes n seq ts ++ payload_bytes ds ++ r) received =
  Some (mkPacket (u32 seq) (u64 ts) (map u64 ds)).
Proof.
  intros Hn Hlen Hrec.
  destruct (header_offsets n seq ts (payload_bytes ds ++ r))
    as (H0 & H4 & H6 & H8 & H12 & H20).
  set (d := header_bytes n seq ts ++ payload_bytes ds ++ r) in *.
  assert (Hmagic : read32 d Big = MAGIC_UDPD) by (rewrite H0; apply read32_be).
  assert (Hver : read16 (skipn 4 d) Big = VERSION_1) by (rewrite H4; apply read16_be).
  assert (Hcount : read16 (skipn 6 d) Big = n)
    by (rewrite H6, read16_be; apply Z.mod_small, Hn).
  assert (Hseq : read32 (skipn 8 d) Big = u32 seq) by (rewrite H8; apply read32_be).
  assert (Hts : read64 (skipn 12 d) Big = u64 ts) by (rewrite H12; apply read64_be).
  rewrite ReceiverFacts.decode_accepts; rewrite ?Hcount; try lia; try assumption.
  rewrite Hseq, Hts, H20. do 2 f_equal.
  rewrite <- Hlen.
  rewrite <- (SenderFacts.read_data_all ds) at 2.
  unfold read_data. rewrite map_map.
  apply map_ext_in. intros i Hi. apply in_seq in Hi.
  apply readDouble_payload. lia.
Qed.

End CodecFacts.

(** * The receiver's claims *)

(** C3. A buffer of at least 20 bytes whose magic, read in the configured
    byte order, is not 0x55445044, or whose version is not 1, is rejected
    by the decoding step whatever else it holds: the loop turn leaves the
    latest slot and the has-data flag as they were. *)
Theorem magic_version_gate (r : Receiver.State) (stopped : bool) (d : list byte) :
  20 <= Z.of_nat (length d) ->
  Receiver.read32 d (Receiver.endian_ r) <> 0x55445044 \/
  Receiver.read16 (skipn 4 d) (Receiver.endian_ r) <> 1 ->
  let r' := Receiver.run_iteration r stopped (Receiver.Received d) in
  Receiver.decode (Receiver.endian_ r) (Receiver.recvBuffer_ r') (Z.of_nat (length d)) = None /\
  Receiver.latest_ r' = Receiver.latest_ r /\
  Receiver.hasData_ r' = Receiver.hasData_ r.
Proof.
  intros Hlen Hbad r'.
  assert (Hnone : Receiver.decode (Receiver.endian_ r) d (Z.of_nat (length d)) = None).
  { destruct Hbad as [Hm | Hv].
    - now apply ReceiverFacts.decode_bad_magic.
    - now apply ReceiverFacts.decode_bad_version. }
  split.
  - unfold r'. now rewrite ReceiverFacts.recvBuffer_received, memcpy_0, decode_stale.
  - now apply ReceiverFacts.dropped_keeps_slot.
Qed.

Lemma magic_version_gate_witness :
  (let r' := Receiver.run_iteration sample_receiver false
               (Receiver.Received bad_magic_datagram) in
   Receiver.decode Receiver.Big (Receiver.recvBuffer_ r') 36 = None /\
   Receiver.latest_ r' = Receiver.latest_ sample_receiver /\
   Receiver.hasData_ r' = false) /\
  (let r' := Receiver.run_iteration sample_receiver false
               (Receiver.Received bad_version_datagram) in
   Receiver.decode Receiver.Big (Receiver.recvBuffer_ r') 36 = None /\
   Receiver.latest_ r' = Receiver.latest_ sample_receiver /\
   Receiver.hasData_ r' = false).
Proof.
  split.
  - apply (magic_version_gate sample_receiver false bad_magic_datagram).
    + vm_compute; discriminate.
    + left; vm_compute; discriminate.
  - apply (magic_version_gate sample_receiver false bad_version_datagram).
    + vm_compute; discriminate.
    + right; vm_compute; discriminate.
Defined.

(** C4. A buffer shorter than 20 bytes is dropped, and so is one that
    passes the magic and version checks and declares [N > 0] doubles while
    being shorter than [20 + N*8] bytes: the latest slot and the has-data
    flag are unchanged. *)
Theorem short_or_truncated_dropped (r : Receiver.State) (stopped : bool) (d : list byte) :
  Z.of_nat (length d) < 20 \/
  (exists N, N > 0 /\
     Receiver.read32 d (Receiver.endian_ r) = 0x55445044 /\
     Receiver.read16 (skipn 4 d) (Receiver.endian_ r) = 1 /\
     Receiver.read16 (skipn 6 d) (Receiver.endian_ r) = N /\
     Z.of_nat (length d) < 20 + N * 8) ->
  let r' := Receiver.run_iteration r stopped (Receiver.Received d) in
  Receiver.decode (Receiver.endian_ r) (Receiver.recvBuffer_ r') (Z.of_nat (length d)) = None /\
  Receiver.latest_ r' = Receiver.latest_ r /\
  Receiver.hasData_ r' = Receiver.hasData_ r.
Proof.
  intros H r'.
  assert (Hnone : Receiver.decode (Receiver.endian_ r) d (Z.of_nat (length d)) = None).
  { destruct H as [Hshort | (N & HN & _ & _ & Hc & Htr)].
    - now apply ReceiverFacts.decode_short.
    - apply ReceiverFacts.decode_truncated. unfold Receiver.HEADER_BYTES. lia. }
  split.
  - unfold r'. now rewrite ReceiverFacts.recvBuffer_received, memcpy_0, decode_stale.
  - now apply ReceiverFacts.dropped_keeps_slot.
Qed.

(** A receiver that already holds the frame with sequence 5 keeps it when
    a 19-byte datagram and a frame cut one byte short arrive, although the
    buffer still holds the missing byte from the earlier datagram. *)
Lemma short_or_truncated_dropped_witness :
  let r := Receiver.run_iteration sample_receiver false
             (Receiver.Received (sample_datagram 5)) in
  (let r' := Receiver.run_iteration r false (Receiver.Received (firstn 19 (sample_datagram 9))) in
   Receiver.decode Receiver.Big (Receiver.recvBuffer_ r') 19 = None /\
   Receiver.latest_ r' = Receiver.latest_ r /\ Receiver.hasData_ r' = true) /\
  (let r' := Receiver.run_iteration r false (Receiver.Received (firstn 35 (sample_datagram 9))) in
   Receiver.decode Receiver.Big (Receiver.recvBuffer_ r') 35 = None /\
   Receiver.latest_ r' = Receiver.latest_ r /\ Receiver.hasData_ r' = true).
Proof.
  intros r. split.
  - apply (short_or_truncated_dropped r false (firstn 19 (sample_datagram 9))).
    left. vm_compute. reflexivity.
  - apply (short_or_truncated_dropped r false (firstn 35 (sample_datagram 9))).
    right. exists 2. vm_compute. repeat split; discriminate.
Defined.

(** C8. With the has-data flag clear, [getLatest] returns false and the
    caller's [out] is what it was; with the flag set it returns true and
    [out] is a copy of the stored packet.  The receiver is the same after
    the call in both cases. *)
Theorem getLatest_spec (r : Receiver.State) (out : Receiver.Packet) :
  (Receiver.hasData_ r = false -> Receiver.getLatest r out = (r, out, false)) /\
  (Receiver.hasData_ r = true -> Receiver.getLatest r out = (r, Receiver.latest_ r, true)).
Proof.
  unfold Receiver.getLatest. split; intros H; rewrite H; reflexivity.
Qed.

Lemma getLatest_spec_witness :
  let out := Receiver.mkPacket 77 88 [dbl_quiet_nan] in
  Receiver.getLatest sample_receiver out = (sample_receiver, out, false) /\
  (let r := Receiver.run sample_receiver (deliveries [sample_datagram 5]) in
   Receiver.getLatest r out = (r, Receiver.mkPacket 5 1000 [dbl_one; dbl_neg_zero], true)).
Proof.
  intros out. split.
  - apply (proj1 (getLatest_spec sample_receiver out)). reflexivity.
  - apply (proj2 (getLatest_spec
                    (Receiver.run sample_receiver (deliveries [sample_datagram 5])) out)).
    vm_compute. reflexivity.
Defined.

(** The flag is clear exactly as long as the loop has stored nothing: a
    receiver fresh from its constructor has it clear, a turn that stores a
    packet sets it, and the loop never clears it again. *)
Lemma never_stored_means_flag_clear bufferSize e setup_ok turns :
  let r0 := fst (Receiver.start (Receiver.construct bufferSize e) setup_ok) in
  Receiver.hasData_ (Receiver.run r0 turns) = false ->
  Receiver.latest_ (Receiver.run r0 turns) = Receiver.mkPacket 0 0 [].
Proof.
  intros r0 H. destruct (ReceiverFacts.run_nothing_stored r0 turns H) as [Hl _].
  rewrite Hl. unfold r0. destruct setup_ok; reflexivity.
Qed.

(** ** Delivery order *)

Lemma last_cons {A} (a d : A) l : last (a :: l) d = last l a.
Proof.
  revert a d; induction l as [|b l IH]; intros a d; [reflexivity|].
  change (last (a :: b :: l) d) with (last (b :: l) d).
  now rewrite (IH b d), (IH b a).
Qed.

Lemma run_uninterrupted r turns :
  Receiver.running_ r = true ->
  Forall (fun t => fst t = false) turns ->
  let r' := Receiver.run r turns in
  let pkts := delivered_packets (Receiver.endian_ r) turns in
  Receiver.latest_ r' = last pkts (Receiver.latest_ r) /\
  Receiver.hasData_ r' = (Receiver.hasData_ r || negb (Nat.eqb (length pkts) 0))%bool.
Proof.
  intros Hrun Hall. revert r Hrun.
  induction Hall as [|[stopped res] rest Hst _ IH]; intros r Hrun; cbv zeta.
  - cbn. now rewrite orb_false_r.
  - cbn [fst] in Hst. subst stopped.
    cbn [Receiver.run]. rewrite Hrun.
    unfold delivered_packets. cbn [flat_map snd].
    fold (delivered_packets (Receiver.endian_ r) rest).
    destruct res as [err | d].
    + cbn [app]. apply (IH r Hrun).
    + rewrite ReceiverFacts.run_iteration_received. cbv zeta.
      destruct (Receiver.decode (Receiver.endian_ r) d (Z.of_nat (length d))) as [pkt|].
      * specialize (IH (Receiver.publish
                          (Receiver.set_recvBuffer r (memcpy (Receiver.recvBuffer_ r) 0 d)) pkt)
                       Hrun).
        cbv zeta in IH. cbn [Receiver.endian_ Receiver.publish Receiver.set_recvBuffer
                             Receiver.latest_ Receiver.hasData_] in IH.
        destruct IH as [IH1 IH2]. rewrite IH1, IH2.
        cbn [app length Nat.eqb negb]. rewrite last_cons, orb_true_r. auto.
      * cbn [app].
        apply (IH (Receiver.set_recvBuffer r (memcpy (Receiver.recvBuffer_ r) 0 d)) Hrun).
Qed.

(** C9. After the loop has processed a run of datagrams without being
    stopped, the latest slot holds the packet of the last datagram that
    decoded, whatever the sequence numbers: delivering the frames with
    sequences 5, 3, 9 in that order makes [getLatest] report the frame with
    sequence 9. *)
Theorem latest_wins (r : Receiver.State) (turns : list (bool * Receiver.RecvResult)) :
  Receiver.running_ r = true ->
  Forall (fun t => fst t = false) turns ->
  delivered_packets (Receiver.endian_ r) turns <> [] ->
  let r' := Receiver.run r turns in
  forall out,
    Receiver.getLatest r' out =
      (r', last (delivered_packets (Receiver.endian_ r) turns) out, true).
Proof.
  intros Hrun Hall Hne r' out.
  destruct (run_uninterrupted r turns Hrun Hall) as [Hl Hd]. fold r' in Hl, Hd.
  destruct (delivered_packets (Receiver.endian_ r) turns) as [|p ps] eqn:E; [congruence|].
  cbn [length Nat.eqb negb] in Hd. rewrite orb_true_r in Hd.
  unfold Receiver.getLatest. rewrite Hd, Hl, !last_cons. reflexivity.
Qed.

Lemma latest_wins_witness :
  let r' := Receiver.run sample_receiver
              (deliveries [sample_datagram 5; sample_datagram 3; sample_datagram 9]) in
  Receiver.getLatest r' (Receiver.mkPacket 0 0 []) =
    (r', Receiver.mkPacket 9 1000 [dbl_one; dbl_neg_zero], true).
Proof.
  intros r'.
  apply (latest_wins sample_receiver
           (deliveries [sample_datagram 5; sample_datagram 3; sample_datagram 9])).
  - reflexivity.
  - repeat constructor.
  - vm_compute. discriminate.
Defined.

(** ** Trailing bytes *)

Lemma agree_skipn n k p q : agree (k + n) p q -> agree n (skipn k p) (skipn k q).
Proof. intros H j Hj. rewrite !idx_skipn. apply H. lia. Qed.

Lemma agree_le n m p q : (m <= n)%nat -> agree n p q -> agree m p q.
Proof. intros Hle H j Hj. apply H. lia. Qed.

Lemma agree_firstn_app n p tail : (n <= length p)%nat -> agree n p (firstn n p ++ tail).
Proof.
  intros Hn j Hj. rewrite idx_app_l by (rewrite length_firstn; lia).
  unfold idx. f_equal. symmetry.
  rewrite <- (firstn_skipn n p) at 2. rewrite app_nth1 by (rewrite length_firstn; lia).
  reflexivity.
Qed.

(** The decoding step looks at the header and at the doubles the header
    announces, and at nothing else. *)
Lemma decode_agree e d d' received received' :
  let n := 20 + Receiver.read16 (skipn 6 d) e * 8 in
  agree (Z.to_nat n) d d' -> n <= received -> n <= received' ->
  Receiver.decode e d received = Receiver.decode e d' received'.
Proof.
  intros n Hag Hr Hr'.
  pose proof (read16_range (skipn 6 d) e) as Hc.
  assert (H20 : agree 20 d d') by (apply (agree_le (Z.to_nat n)); [lia | exact Hag]).
  assert (Hcount : Receiver.read16 (skipn 6 d') e = Receiver.read16 (skipn 6 d) e).
  { symmetry. apply read16_agree, agree_skipn, (agree_le 20); [lia | exact H20]. }
  unfold Receiver.decode, Receiver.HEADER_BYTES.
  destruct (Z.ltb_spec received 20); [lia|].
  destruct (Z.ltb_spec received' 20); [lia|].
  rewrite Hcount.
  rewrite <- (read32_agree (skipn 0 d) (skipn 0 d'))
    by (apply agree_skipn, (agree_le 20); [lia | exact H20]).
  rewrite <- (read16_agree (skipn 4 d) (skipn 4 d'))
    by (apply agree_skipn, (agree_le 20); [lia | exact H20]).
  rewrite <- (read32_agree (skipn 8 d) (skipn 8 d'))
    by (apply agree_skipn, (agree_le 20); [lia | exact H20]).
  rewrite <- (read64_agree (skipn 12 d) (skipn 12 d'))
    by (apply agree_skipn, (agree_le 20); [lia | exact H20]).
  destruct (negb _); [reflexivity|].
  destruct (negb _); [reflexivity|].
  fold n.
  destruct (Z.gtb_spec n received); [lia|].
  destruct (Z.gtb_spec n received'); [lia|].
  do 2 f_equal. apply map_ext_in. intros i Hi. apply in_seq in Hi.
  unfold Receiver.readDouble. apply read64_agree.
  apply agree_skipn, agree_skipn, (agree_le (Z.to_nat n)); [lia | exact Hag].
Qed.

(** C10. A datagram that passes the magic and version checks, declares
    [N] doubles and is longer than [20 + N*8] bytes is accepted: the stored
    packet holds the [N] doubles read from offset 20 on, and the bytes from
    offset [20 + N*8] on play no part, so that any other surplus, or none,
    gives the same packet. *)
Theorem surplus_bytes_ignored (r : Receiver.State) (d : list byte) (N : Z) :
  Receiver.read32 d (Receiver.endian_ r) = 0x55445044 ->
  Receiver.read16 (skipn 4 d) (Receiver.endian_ r) = 1 ->
  Receiver.read16 (skipn 6 d) (Receiver.endian_ r) = N ->
  Z.of_nat (length d) > 20 + N * 8 ->
  let e := Receiver.endian_ r in
  let r' := Receiver.run_iteration r false (Receiver.Received d) in
  Receiver.hasData_ r' = true /\
  Receiver.latest_ r' =
    Receiver.mkPacket (Receiver.read32 (skipn 8 d) e) (Receiver.read64 (skipn 12 d) e)
      (map (fun i => Receiver.readDouble (skipn (i * 8) (skipn 20 d)) e)
           (List.seq 0 (Z.to_nat N))) /\
  Z.of_nat (length (Receiver.data (Receiver.latest_ r'))) = N /\
  forall surplus,
    Receiver.latest_
      (Receiver.run_iteration r false
         (Receiver.Received (firstn (Z.to_nat (20 + N * 8)) d ++ surplus))) =
    Receiver.latest_ r'.
Proof.
  intros Hm Hv Hc Hlen e r'.
  pose proof (read16_range (skipn 6 d) (Receiver.endian_ r)) as HN. rewrite Hc in HN.
  assert (Hdec : Receiver.decode e d (Z.of_nat (length d)) =
                 Some (Receiver.mkPacket (Receiver.read32 (skipn 8 d) e)
                         (Receiver.read64 (skipn 12 d) e)
                         (map (fun i => Receiver.readDouble (skipn (i * 8) (skipn 20 d)) e)
                              (List.seq 0 (Z.to_nat N))))).
  { unfold e. rewrite ReceiverFacts.decode_accepts; rewrite ?Hc; try assumption; try lia.
    reflexivity. }
  assert (Hr' : Receiver.latest_ r' =
                Receiver.mkPacket (Receiver.read32 (skipn 8 d) e)
                  (Receiver.read64 (skipn 12 d) e)
                  (map (fun i => Receiver.readDouble (skipn (i * 8) (skipn 20 d)) e)
                       (List.seq 0 (Z.to_nat N)))).
  { unfold r'. rewrite ReceiverFacts.run_iteration_received. cbv zeta.
    fold e. rewrite Hdec. reflexivity. }
  split; [|split; [exact Hr' | split]].
  - unfold r'. rewrite ReceiverFacts.run_iteration_received. cbv zeta.
    fold e. rewrite Hdec. reflexivity.
  - rewrite Hr'. cbn [Receiver.data]. rewrite length_map, length_seq. lia.
  - intros surplus. rewrite Hr'.
    rewrite ReceiverFacts.run_iteration_received. cbv zeta. fold e.
    rewrite <- (decode_agree e d _ (Z.of_nat (length d))).
    + rewrite Hdec. reflexivity.
    + unfold e. rewrite Hc. apply agree_firstn_app. lia.
    + unfold e. rewrite Hc. lia.
    + unfold e. rewrite Hc. rewrite length_app, length_firstn. lia.
Qed.

(** The frame with sequence 9 followed by three stray bytes. *)
Lemma surplus_bytes_ignored_witness :
  let d := sample_datagram 9 ++ [Byte.xff; Byte.xfe; Byte.xfd] in
  let r' := Receiver.run_iteration sample_receiver false (Receiver.Received d) in
  Receiver.hasData_ r' = true /\
  Receiver.latest_ r' = Receiver.mkPacket 9 1000 [dbl_one; dbl_neg_zero] /\
  Z.of_nat (length (Receiver.data (Receiver.latest_ r'))) = 2 /\
  forall surplus,
    Receiver.latest_
      (Receiver.run_iteration sample_receiver false
         (Receiver.Received (sample_datagram 9 ++ surplus))) =
    Receiver.latest_ r'.
Proof.
  exact (surplus_bytes_ignored sample_receiver
           (sample_datagram 9 ++ [Byte.xff; Byte.xfe; Byte.xfd]) 2
           eq_refl eq_refl eq_refl eq_refl).
Defined.

(** ** Signed and unsigned readings *)

Ltac pow2 :=
  change (2 ^ 16) with 65536 in *;
  change (2 ^ 31) with 2147483648 in *;
  change (2 ^ 32) with 4294967296 in *;
  change (2 ^ 63) with 9223372036854775808 in *;
  change (2 ^ 64) with 18446744073709551616 in *.

Ltac wrap_arith :=
  unfold s32, s64, u16, u32, u64, INT64_MIN, INT64_MAX, INT32_MAX in *; pow2;
  Z.div_mod_to_equations; lia.

Lemma s32_u32 x : s32 (u32 x) = s32 x.
Proof. wrap_arith. Qed.

Lemma s64_u64 x : s64 (u64 x) = s64 x.
Proof. wrap_arith. Qed.

Lemma s32_small x : - 2 ^ 31 <= x < 2 ^ 31 -> s32 x = x.
Proof. intros H. wrap_arith. Qed.

Lemma s64_small x : - 2 ^ 63 <= x < 2 ^ 63 -> s64 x = x.
Proof. intros H. wrap_arith. Qed.

Lemma s32_add_l a b : s32 (s32 a + b) = s32 (a + b).
Proof. wrap_arith. Qed.

Lemma s64_add_r a b : s64 (a + s64 b) = s64 (a + b).
Proof. wrap_arith. Qed.

Lemma s64_idem a : s64 (s64 a) = s64 a.
Proof. wrap_arith. Qed.

Lemma s32_succ_neq a : s32 (a + 1) <> s32 a.
Proof. wrap_arith. Qed.

Lemma u16_le count : 0 <= count -> 0 <= u16 count <= count.
Proof. intros H. wrap_arith. Qed.

(** ** Header fields of an encoded frame *)

Lemma wire_fields n seq ts (r : list byte) :
  let d := header_bytes n seq ts ++ r in
  wire_magic d = Sender.MAGIC /\
  wire_version d = Sender.VERSION /\
  wire_count d = u16 n /\
  wire_sequence d = s32 seq /\
  wire_timestamp d = s64 ts.
Proof.
  cbv zeta.
  destruct (CodecFacts.header_offsets n seq ts r) as (H0 & H4 & H6 & H8 & H12 & _).
  cbv zeta in *.
  unfold wire_magic, wire_version, wire_count, wire_sequence, wire_timestamp.
  change (skipn 0 (header_bytes n seq ts ++ r)) with (header_bytes n seq ts ++ r).
  rewrite H4, H6, H8, H12. rewrite H0.
  rewrite !read16_be, !read32_be, read64_be, s32_u32, s64_u64.
  repeat split; reflexivity.
Qed.

(** ** One call *)

Module CallFacts.
Import Sender.

Lemma construct_wf maxDoubles connectUdp maxPayloadBytes now fd s :
  construct maxDoubles connectUdp maxPayloadBytes now (inr fd) = Returned s ->
  sender_wf s /\ seq_ s = 0 /\ tsOffset_ s = initTimestampOffset_ now.
Proof.
  unfold construct. intros H. injection H as <-.
  unfold sender_wf. cbn [maxDoubles_ buffer_ seq_ tsOffset_].
  rewrite repeat_length. repeat split; lia.
Qed.

(** What [sendWithSeq] leaves behind and what it hands to the socket. *)
Lemma sendWithSeq_after h env s data count seq ts :
  sender_wf s ->
  let r := sendWithSeq h env s data count seq ts in
  sender_wf (after r) /\
  maxDoubles_ (after r) = maxDoubles_ s /\
  seq_ (after r) = seq_ s /\
  tsOffset_ (after r) = tsOffset_ s /\
  sock_ (after r) = sock_ s /\
  forall d, wire r = Some d ->
    exists ds, data = Some ds /\ 0 < count <= maxDoubles_ s /\
      isOpen_ s = true /\ 0 <= send_result env /\
      outcome r = Returned (send_result env) /\
      d = header_bytes (u16 count) seq (stamp s env ts)
            ++ payload_bytes (read_data ds (Z.to_nat (u16 count))).
Proof.
  intros [Hcap Hbuf]. unfold sendWithSeq.
  destruct data as [ds|]; [|cbn; repeat split; auto; discriminate].
  destruct (Z.leb_spec count 0); [cbn; repeat split; auto; discriminate|].
  destruct (Z.gtb_spec count (maxDoubles_ s)); [cbn; repeat split; auto; discriminate|].
  destruct (isOpen_ s) eqn:Hopen; cbn [negb]; [|cbn; repeat split; auto; discriminate].
  fold (stamp s env ts).
  pose proof (u16_le count ltac:(lia)) as Hn.
  pose proof (SenderFacts.encodeFrame_wire h (buffer_ s) ds count seq (stamp s env ts)) as Hw.
  destruct (encodeFrame h (buffer_ s) ds count seq (stamp s env ts)) as [buf bytes].
  destruct Hw as (Hbytes & Hlen & Hfirst);
    [rewrite Hbuf; unfold HEADER_BYTES; lia|].
  destruct (Z.ltb_spec (send_result env) 0);
    cbn [after wire outcome set_buffer maxDoubles_ seq_ tsOffset_ sock_ buffer_];
    unfold sender_wf; cbn [maxDoubles_ buffer_ set_buffer];
    (repeat split; auto; try congruence).
  intros d Hd. injection Hd as <-. exists ds. rewrite Hfirst. repeat split; auto; try lia.
Qed.

Lemma sendAutoSeq_after h env s data count :
  sender_wf s ->
  let r := sendAutoSeq h env s data count in
  sender_wf (after r) /\
  maxDoubles_ (after r) = maxDoubles_ s /\
  seq_ (after r) = s32 (seq_ s + 1) /\
  tsOffset_ (after r) = tsOffset_ s /\
  forall d, wire r = Some d ->
    wire_sequence d = s32 (seq_ s) /\
    wire_timestamp d = monotonicNowNanosNonNegative_ s (clock_now env).
Proof.
  intros Hwf. unfold sendAutoSeq. cbv zeta.
  pose proof (sendWithSeq_after h env (set_seq s (s32 (seq_ s + 1))) data count
                (seq_ s) INT64_MIN) as H.
  cbv zeta in H. destruct H as (H1 & H2 & H3 & H4 & _ & H5); [exact Hwf|].
  do 4 (split; [assumption|]).
  intros d Hd. destruct (H5 d Hd) as (ds & _ & _ & _ & _ & _ & ->).
  split.
  - apply wire_fields.
  - destruct (wire_fields (u16 count) (seq_ s)
                (stamp (set_seq s (s32 (seq_ s + 1))) env INT64_MIN)
                (payload_bytes (read_data ds (Z.to_nat (u16 count)))))
      as (_ & _ & _ & _ & Hts).
    cbv zeta in Hts. rewrite Hts. unfold stamp. rewrite Z.eqb_refl.
    unfold monotonicNowNanosNonNegative_. cbn [set_seq tsOffset_]. apply s64_idem.
Qed.


End CallFacts.

(** * The sender's claims *)

(** C1, as the code has it.  The sender writes big-endian only.  For a
    frame of [count] doubles, [0 <= count <= capacity] and
    [count <= 65535], with arbitrary bit patterns as doubles, the bytes
    the encoding step produces decode, in a big-endian receiver, to the
    same frame bit for bit: magic, version, count, sequence, time stamp
    and every double. *)
Theorem roundtrip_big_endian (h : Sender.HostOrder) (s : Sender.State)
    (data : list double) (count seq ts : Z) :
  sender_wf s ->
  Z.of_nat (length data) = count ->
  count <= Sender.maxDoubles_ s ->
  count <= 65535 ->
  Forall is_double data ->
  - 2 ^ 31 <= seq < 2 ^ 31 ->
  - 2 ^ 63 <= ts < 2 ^ 63 ->
  let '(buf, bytes) := Sender.encodeFrame h (Sender.buffer_ s) data count seq ts in
  let d := firstn (Z.to_nat bytes) buf in
  Z.of_nat (length d) = bytes /\
  wire_magic d = Sender.MAGIC /\
  wire_version d = Sender.VERSION /\
  wire_count d = count /\
  wire_sequence d = seq /\
  wire_timestamp d = ts /\
  Receiver.decode Receiver.Big d bytes =
    Some (Receiver.mkPacket (u32 seq) (u64 ts) data).
Proof.
  intros [Hcap Hbuf] Hlen Hmax H16 Hdbl Hseq Hts.
  assert (Hu : u16 count = count) by (apply Z.mod_small; lia).
  pose proof (SenderFacts.encodeFrame_wire h (Sender.buffer_ s) data count seq ts) as Hw.
  destruct (Sender.encodeFrame h (Sender.buffer_ s) data count seq ts) as [buf bytes].
  destruct Hw as (Hbytes & Hl & Hfirst);
    [rewrite Hbuf, Hu; unfold Sender.HEADER_BYTES; lia|].
  cbv zeta. rewrite Hfirst, Hu in *.
  replace (Z.to_nat count) with (length data) by lia.
  rewrite SenderFacts.read_data_all.
  destruct (wire_fields count seq ts (payload_bytes data)) as (W1 & W2 & W3 & W4 & W5).
  cbv zeta in *.
  repeat match goal with |- _ /\ _ => split end.
  - rewrite length_app, SenderFacts.length_header_bytes, SenderFacts.length_payload_bytes. lia.
  - exact W1.
  - exact W2.
  - now rewrite W3.
  - now rewrite W4, s32_small.
  - now rewrite W5, s64_small.
  - rewrite <- (app_nil_r (payload_bytes data)).
    rewrite CodecFacts.decode_layout; try lia.
    now rewrite CodecFacts.map_u64_doubles.
Qed.

(** A frame of NaN, both infinities and minus zero, with a negative
    sequence number. *)
Lemma roundtrip_big_endian_witness :
  let data := [dbl_quiet_nan; dbl_nan_payload; dbl_pos_inf; dbl_neg_inf; dbl_neg_zero] in
  let '(buf, bytes) :=
    Sender.encodeFrame Sender.HostLittle (Sender.buffer_ (sample_sender 0)) data 5 (-7) 1000 in
  let d := firstn (Z.to_nat bytes) buf in
  Z.of_nat (length d) = bytes /\
  wire_magic d = Sender.MAGIC /\
  wire_version d = Sender.VERSION /\
  wire_count d = 5 /\
  wire_sequence d = -7 /\
  wire_timestamp d = 1000 /\
  Receiver.decode Receiver.Big d bytes =
    Some (Receiver.mkPacket (u32 (-7)) (u64 1000) data).
Proof.
  intros data.
  apply (roundtrip_big_endian Sender.HostLittle (sample_sender 0) data 5 (-7) 1000).
  - split; [vm_compute; discriminate | reflexivity].
  - reflexivity.
  - vm_compute; discriminate.
  - vm_compute; discriminate.
  - repeat constructor; vm_compute; congruence.
  - split; vm_compute; congruence.
  - split; vm_compute; congruence.
Defined.

(** C1 as stated fails.  A little-endian receiver rejects every frame the
    sender encodes, on either kind of host; and when the capacity exceeds
    65535 a frame of 65536 doubles is encoded with count 0 and decodes to
    no doubles at all. *)
Lemma roundtrip_fails_little_endian :
  (let '(buf, bytes) :=
     Sender.encodeFrame Sender.HostLittle (Sender.buffer_ (sample_sender 0))
       [dbl_one] 1 7 1000 in
   Receiver.decode Receiver.Little (firstn (Z.to_nat bytes) buf) bytes) = None /\
  (let '(buf, bytes) :=
     Sender.encodeFrame Sender.HostBig (Sender.buffer_ (sample_sender 0))
       [dbl_one] 1 7 1000 in
   Receiver.decode Receiver.Little (firstn (Z.to_nat bytes) buf) bytes) = None /\
  (Sender.maxDoubles_ large_sender = 65536 /\
   let '(buf, bytes) :=
     Sender.encodeFrame Sender.HostLittle (Sender.buffer_ large_sender)
       (repeat dbl_one (Z.to_nat 65536)) 65536 7 1000 in
   Receiver.decode Receiver.Big (firstn (Z.to_nat bytes) buf) bytes =
     Some (Receiver.mkPacket 7 1000 [])).
Proof. repeat split; vm_compute; reflexivity. Qed.

(** What the counterexample shows holds for every frame: whatever
    [sendWithSeq] hands to the socket, a little-endian receiver reads the
    magic as 0x44504455 and drops the datagram. *)
Lemma little_endian_rejects_every_frame h env s data count seq ts d received :
  sender_wf s ->
  Sender.wire (Sender.sendWithSeq h env s data count seq ts) = Some d ->
  Receiver.decode Receiver.Little d received = None.
Proof.
  intros Hwf Hd.
  destruct (CallFacts.sendWithSeq_after h env s data count seq ts Hwf)
    as (_ & _ & _ & _ & _ & Hw).
  destruct (Hw d Hd) as (ds & _ & _ & _ & _ & _ & ->).
  apply ReceiverFacts.decode_bad_magic.
  unfold header_bytes. rewrite <- !app_assoc.
  vm_compute. discriminate.
Qed.

(** From the caller of the sender to the caller of the receiver: a frame
    that [sendWithSeq] emits and that the loop of a big-endian receiver
    takes in is what [getLatest] then returns, double for double. *)
Lemma end_to_end h env s ds count seq ts d r out :
  sender_wf s ->
  Z.of_nat (length ds) = count -> count <= 65535 -> Forall is_double ds ->
  Sender.wire (Sender.sendWithSeq h env s (Some ds) count seq ts) = Some d ->
  Receiver.endian_ r = Receiver.Big ->
  let r' := Receiver.run_iteration r false (Receiver.Received d) in
  Receiver.getLatest r' out =
    (r', Receiver.mkPacket (u32 seq) (u64 (stamp s env ts)) ds, true).
Proof.
  intros Hwf Hlen H16 Hdbl Hd Hbig r'.
  destruct (CallFacts.sendWithSeq_after h env s (Some ds) count seq ts Hwf)
    as (_ & _ & _ & _ & _ & Hw).
  destruct (Hw d Hd) as (ds' & Hds & Hc & _ & _ & _ & Hbytes).
  injection Hds as <-.
  assert (Hu : u16 count = count) by (apply Z.mod_small; lia).
  rewrite Hu in Hbytes.
  replace (Z.to_nat count) with (length ds) in Hbytes by lia.
  rewrite SenderFacts.read_data_all in Hbytes.
  assert (Hdec : Receiver.decode Receiver.Big d (Z.of_nat (length d)) =
                 Some (Receiver.mkPacket (u32 seq) (u64 (stamp s env ts)) ds)).
  { rewrite Hbytes at 1. rewrite <- (app_nil_r (payload_bytes ds)).
    rewrite CodecFacts.decode_layout; try lia.
    - now rewrite CodecFacts.map_u64_doubles.
    - rewrite Hbytes, length_app, SenderFacts.length_header_bytes,
        SenderFacts.length_payload_bytes. lia. }
  unfold r'. rewrite ReceiverFacts.run_iteration_received. cbv zeta.
  rewrite Hbig, Hdec. reflexivity.
Qed.

(** C2 as stated fails: a call with a non-null, empty array returns 0; it
    throws nothing and sends nothing. *)
Lemma empty_send_returns_zero :
  let r := Sender.sendWithSeq Sender.HostLittle (sample_env 5) (sample_sender 0)
             (Some []) 0 1 INT64_MIN in
  Sender.outcome r = Sender.Returned 0 /\
  Sender.is_argument_error (Sender.outcome r) = false /\
  Sender.wire r = None.
Proof. repeat split. Qed.

(** C2, as the code has it.  A call of [sendWithSeq] with a non-null array
    and [count = 0] returns 0 to the caller: it throws nothing, sends
    nothing and leaves the sender as it was. *)
Theorem empty_send_is_silent (h : Sender.HostOrder) (env : Sender.Env)
    (s : Sender.State) (data : list double) (seq ts : Z) :
  Sender.sendWithSeq h env s (Some data) 0 seq ts =
  Sender.mkSent s (Sender.Returned 0) None.
Proof. reflexivity. Qed.

(** The arguments that do raise an argument error: a null array, and a
    count above the capacity. *)
Lemma argument_errors h env s data count seq ts :
  data = None \/ count > Sender.maxDoubles_ s /\ 0 <= Sender.maxDoubles_ s ->
  let r := Sender.sendWithSeq h env s data count seq ts in
  Sender.is_argument_error (Sender.outcome r) = true /\
  Sender.wire r = None /\ Sender.after r = s.
Proof.
  intros H. unfold Sender.sendWithSeq.
  destruct data as [ds|]; [|repeat split].
  destruct H as [H | [H H0]]; [discriminate|].
  destruct (Z.leb_spec count 0); [lia|].
  destruct (Z.gtb_spec count (Sender.maxDoubles_ s)); [repeat split | lia].
Qed.

(** C5. The effective capacity of a sender is
    [max 0 (min maxDoubles (floor ((payloadLimit - 20) / 8)))], where the
    payload limit is [maxPayloadBytes] when positive and 1400 otherwise;
    and every send of more doubles than the capacity fails with an argument
    error and sends nothing.  For [maxDoubles = 1000] and 1400 bytes the
    capacity is 172 and a send of 173 doubles fails. *)
Theorem capacity_clamp (maxDoubles maxPayloadBytes now fd : Z) (connectUdp : bool)
    (h : Sender.HostOrder) (env : Sender.Env) (data : option (list double))
    (count seq ts : Z) :
  let payloadLimit := if maxPayloadBytes >? 0 then maxPayloadBytes else 1400 in
  let capacity := Z.max 0 (Z.min maxDoubles ((payloadLimit - 20) / 8)) in
  count > capacity ->
  exists s,
    Sender.construct maxDoubles connectUdp maxPayloadBytes now (inr fd) = Sender.Returned s /\
    Sender.getMaxDoubles s = capacity /\
    Sender.is_argument_error
      (Sender.outcome (Sender.sendWithSeq h env s data count seq ts)) = true /\
    Sender.wire (Sender.sendWithSeq h env s data count seq ts) = None /\
    Sender.is_argument_error
      (Sender.outcome (Sender.sendAutoSeq h env s data count)) = true /\
    Sender.wire (Sender.sendAutoSeq h env s data count) = None.
Proof.
  intros payloadLimit capacity Hc.
  assert (Hcap : Z.max 0 (Z.min maxDoubles
                   (Z.max 0 (Z.quot (payloadLimit - Sender.HEADER_BYTES) 8))) = capacity).
  { unfold capacity, Sender.HEADER_BYTES.
    destruct (Z_lt_le_dec (payloadLimit - 20) 0) as [Hneg | Hpos].
    - pose proof (Z.quot_opp_l (- (payloadLimit - 20)) 8 ltac:(lia)) as Hq.
      rewrite Z.opp_involutive in Hq.
      pose proof (Z.quot_pos (- (payloadLimit - 20)) 8 ltac:(lia) ltac:(lia)).
      pose proof (Z.div_lt_upper_bound (payloadLimit - 20) 8 0 ltac:(lia) ltac:(lia)).
      lia.
    - rewrite Z.quot_div_nonneg by lia.
      pose proof (Z.div_pos (payloadLimit - 20) 8 Hpos ltac:(lia)). lia. }
  set (s := Sender.mkState fd connectUdp capacity 0
              (repeat Byte.x00 (Z.to_nat (Sender.HEADER_BYTES + capacity * 8)))
              (Sender.initTimestampOffset_ now)).
  assert (Hge : 0 <= capacity) by (unfold capacity; lia).
  exists s. split.
  - unfold Sender.construct.
    change (if maxPayloadBytes >? 0 then maxPayloadBytes
            else Sender.DEFAULT_MAX_UDP_PAYLOAD) with payloadLimit.
    cbv zeta. rewrite Hcap. reflexivity.
  - split; [reflexivity|].
    destruct (argument_errors h env s data count seq ts) as (E1 & E2 & _);
      [right; cbn; lia|].
    destruct (argument_errors h env (Sender.set_seq s (s32 (Sender.seq_ s + 1)))
                data count (Sender.seq_ s) INT64_MIN) as (E3 & E4 & _);
      [right; cbn; lia|].
    repeat match goal with |- _ /\ _ => split end; assumption.
Qed.

Lemma capacity_clamp_witness :
  exists s,
    Sender.construct 1000 true 1400 0 (inr 3) = Sender.Returned s /\
    Sender.getMaxDoubles s = 172 /\
    Sender.is_argument_error
      (Sender.outcome (Sender.sendWithSeq Sender.HostLittle (sample_env 5) s
                         (Some (repeat dbl_one 173)) 173 1 INT64_MIN)) = true /\
    Sender.wire (Sender.sendWithSeq Sender.HostLittle (sample_env 5) s
                   (Some (repeat dbl_one 173)) 173 1 INT64_MIN) = None /\
    Sender.is_argument_error
      (Sender.outcome (Sender.sendAutoSeq Sender.HostLittle (sample_env 5) s
                         (Some (repeat dbl_one 173)) 173)) = true /\
    Sender.wire (Sender.sendAutoSeq Sender.HostLittle (sample_env 5) s
                   (Some (repeat dbl_one 173)) 173) = None.
Proof.
  apply (capacity_clamp 1000 1400 0 3 true Sender.HostLittle (sample_env 5)
           (Some (repeat dbl_one 173)) 173 1 INT64_MIN).
  vm_compute. reflexivity.
Defined.

(** ** The sequence counter *)

Lemma auto_calls_nth h args : forall s i r,
  sender_wf s ->
  nth_error (Sender.lifetime h s (auto_calls args)) i = Some r ->
  Sender.seq_ (Sender.after r) = s32 (Sender.seq_ s + Z.of_nat i + 1) /\
  forall d, Sender.wire r = Some d ->
    wire_sequence d = s32 (Sender.seq_ s + Z.of_nat i).
Proof.
  induction args as [|[[env data] count] args IH]; intros s i r Hwf Hnth.
  - destruct i; discriminate.
  - cbn [auto_calls map Sender.lifetime fst snd Sender.call] in Hnth.
    destruct (CallFacts.sendAutoSeq_after h env s data count Hwf)
      as (Hwf' & _ & Hseq & _ & Hwire).
    cbv zeta in *.
    destruct i as [|i]; cbn [nth_error] in Hnth.
    + injection Hnth as <-. split.
      * rewrite Hseq. f_equal. lia.
      * intros d Hd. destruct (Hwire d Hd) as [-> _]. f_equal. lia.
    + destruct (IH _ i r Hwf' Hnth) as [I1 I2]. rewrite Hseq in I1, I2. split.
      * rewrite I1, <- Z.add_assoc, s32_add_l. f_equal. lia.
      * intros d Hd. rewrite (I2 d Hd), s32_add_l. f_equal. lia.
Qed.

(** The object a call of a run of [sendAutoSeq] calls is made on. *)
Lemma auto_calls_state h args : forall s i env data count,
  sender_wf s ->
  nth_error args i = Some (env, data, count) ->
  exists si,
    nth_error (Sender.lifetime h s (auto_calls args)) i =
      Some (Sender.sendAutoSeq h env si data count) /\
    sender_wf si /\
    Sender.sock_ si = Sender.sock_ s /\
    Sender.maxDoubles_ si = Sender.maxDoubles_ s /\
    s32 (Sender.seq_ si) = s32 (Sender.seq_ s + Z.of_nat i).
Proof.
  induction args as [|[[env0 data0] count0] args IH]; intros s i env data count Hwf Hnth.
  - destruct i; discriminate.
  - cbn [auto_calls map Sender.lifetime fst snd Sender.call].
    destruct i as [|i]; cbn [nth_error] in Hnth |- *.
    + injection Hnth as -> -> ->. exists s.
      repeat match goal with |- _ /\ _ => split end; auto.
      now rewrite Z.add_0_r.
    + fold (auto_calls args).
      set (s1 := Sender.after (Sender.sendAutoSeq h env0 s data0 count0)).
      destruct (CallFacts.sendAutoSeq_after h env0 s data0 count0 Hwf)
        as (Hwf1 & Hcap1 & Hseq1 & _ & _).
      assert (Hsock1 : Sender.sock_ s1 = Sender.sock_ s).
      { unfold s1, Sender.sendAutoSeq. cbv zeta.
        destruct (CallFacts.sendWithSeq_after h env0
                    (Sender.set_seq s (s32 (Sender.seq_ s + 1))) data0 count0
                    (Sender.seq_ s) INT64_MIN Hwf) as (_ & _ & _ & _ & Hs & _).
        exact Hs. }
      cbv zeta in Hwf1, Hcap1, Hseq1. fold s1 in Hwf1, Hcap1, Hseq1.
      destruct (IH s1 i env data count Hwf1 Hnth) as (si & Hr & Hwfi & Hsock & Hcap & Hseq).
      exists si. repeat match goal with |- _ /\ _ => split end; auto; try congruence.
      rewrite Hseq, Hseq1, s32_add_l. f_equal. lia.
Qed.

(** A call with a non-null array of [count] doubles within the capacity,
    on an open socket that accepts the datagram, does emit a frame. *)
Lemma sendWithSeq_emits h env s ds count seq ts :
  0 < count <= Sender.maxDoubles_ s -> Sender.isOpen_ s = true ->
  0 <= Sender.send_result env ->
  exists d, Sender.wire (Sender.sendWithSeq h env s (Some ds) count seq ts) = Some d.
Proof.
  intros Hc Hopen Hsent. unfold Sender.sendWithSeq.
  destruct (Z.leb_spec count 0); [lia|].
  destruct (Z.gtb_spec count (Sender.maxDoubles_ s)); [lia|].
  rewrite Hopen. cbn [negb].
  destruct (Sender.encodeFrame _ _ _ _ _ _) as [buf bytes].
  destruct (Z.ltb_spec (Sender.send_result env) 0); [lia|].
  eexists. reflexivity.
Qed.

(** C6. In [k] successive calls of [sendAutoSeq] on an open sender whose
    counter is [seq_ s], every call that is given an array, a count within
    [1 .. capacity] and a send that succeeds emits a frame, and that frame
    carries the sequence number [seq_ s + i] wrapped to a signed 32-bit
    value, [i] being the position of the call counting from 0 (the [i]-th
    call counting from 1 emits [seq_ s + i - 1]).  No call emits any other
    number, and each emitted number is the wrapped successor of, and
    differs from, the one of the call before. *)
Theorem auto_sequence_increments (h : Sender.HostOrder) (s : Sender.State)
    (args : list (Sender.Env * option (list double) * Z)) :
  sender_wf s ->
  Sender.isOpen_ s = true ->
  let results := Sender.lifetime h s (auto_calls args) in
  (forall i env ds count,
     nth_error args i = Some (env, Some ds, count) ->
     0 < count <= Sender.maxDoubles_ s ->
     0 <= Sender.send_result env ->
     exists r d,
       nth_error results i = Some r /\
       Sender.wire r = Some d /\
       Sender.outcome r = Sender.Returned (Sender.send_result env) /\
       wire_sequence d = s32 (Sender.seq_ s + Z.of_nat i)) /\
  (forall i r d,
     nth_error results i = Some r -> Sender.wire r = Some d ->
     wire_sequence d = s32 (Sender.seq_ s + Z.of_nat i)) /\
  (forall i r r' d d',
     nth_error results i = Some r -> Sender.wire r = Some d ->
     nth_error results (S i) = Some r' -> Sender.wire r' = Some d' ->
     wire_sequence d' = s32 (wire_sequence d + 1) /\
     wire_sequence d' <> wire_sequence d).
Proof.
  intros Hwf Hopen results.
  assert (Hnum : forall i r d,
            nth_error results i = Some r -> Sender.wire r = Some d ->
            wire_sequence d = s32 (Sender.seq_ s + Z.of_nat i)).
  { intros i r d Hr Hd. exact (proj2 (auto_calls_nth h args s i r Hwf Hr) d Hd). }
  split; [|split; [exact Hnum|]].
  - intros i env ds count Hnth Hcount Hsend.
    destruct (auto_calls_state h args s i env (Some ds) count Hwf Hnth)
      as (si & Hr & Hwfi & Hsock & Hcap & _).
    set (si' := Sender.set_seq si (s32 (Sender.seq_ si + 1))).
    destruct (sendWithSeq_emits h env si' ds count (Sender.seq_ si) INT64_MIN) as [d Hd];
      [unfold si'; cbn [Sender.set_seq Sender.maxDoubles_]; lia
      |unfold si', Sender.isOpen_ in *; cbn [Sender.set_seq Sender.sock_]; congruence
      |exact Hsend|].
    exists (Sender.sendAutoSeq h env si (Some ds) count), d.
    split; [exact Hr|]. split; [exact Hd|]. split.
    + destruct (CallFacts.sendWithSeq_after h env si' (Some ds) count (Sender.seq_ si)
                  INT64_MIN Hwfi) as (_ & _ & _ & _ & _ & Hw).
      destruct (Hw d Hd) as (ds' & _ & _ & _ & _ & Hout & _). exact Hout.
    + apply (Hnum i _ d Hr Hd).
  - intros i r r' d d' Hr Hd Hr' Hd'.
    rewrite (Hnum i r d Hr Hd), (Hnum (S i) r' d' Hr' Hd').
    rewrite s32_add_l.
    replace (Sender.seq_ s + Z.of_nat (S i)) with (Sender.seq_ s + Z.of_nat i + 1) by lia.
    split; [reflexivity | apply s32_succ_neq].
Qed.

(** Three calls on a sender whose counter is [INT32_MAX - 1]: each emits,
    and the third frame carries [INT32_MIN], the wrapped successor of the
    [INT32_MAX] of the second. *)
Lemma auto_sequence_increments_witness :
  let results := Sender.lifetime Sender.HostLittle wrapping_sender (auto_calls three_sends) in
  (exists r d,
     nth_error results 1 = Some r /\ Sender.wire r = Some d /\
     Sender.outcome r = Sender.Returned 36 /\
     wire_sequence d = s32 (INT32_MAX - 1 + 1)) /\
  (exists r d,
     nth_error results 2 = Some r /\ Sender.wire r = Some d /\
     Sender.outcome r = Sender.Returned 36 /\
     wire_sequence d = s32 (INT32_MAX - 1 + 2)) /\
  s32 (INT32_MAX - 1 + 2) = - 2 ^ 31.
Proof.
  intros results.
  assert (Hwf : sender_wf wrapping_sender)
    by (split; [vm_compute; discriminate | reflexivity]).
  assert (Hopen : Sender.isOpen_ wrapping_sender = true) by reflexivity.
  destruct (auto_sequence_increments Sender.HostLittle wrapping_sender three_sends Hwf Hopen)
    as (Hemit & _ & _).
  split; [|split; [|reflexivity]].
  - apply (Hemit 1%nat (sample_env 20) [dbl_one; dbl_neg_zero] 2);
      [reflexivity | vm_compute; split; [reflexivity | discriminate] | vm_compute; discriminate].
  - apply (Hemit 2%nat (sample_env 30) [dbl_pos_inf] 1);
      [reflexivity | vm_compute; split; [reflexivity | discriminate] | vm_compute; discriminate].
Defined.

(** The three frames carry INT32_MAX - 1, INT32_MAX and INT32_MIN. *)
Example auto_sequence_wraps :
  map (fun r => option_map wire_sequence (Sender.wire r))
      (Sender.lifetime Sender.HostLittle wrapping_sender (auto_calls three_sends)) =
  [Some 2147483646; Some 2147483647; Some (-2147483648)].
Proof. vm_compute. reflexivity. Qed.

(** ** Time stamps *)

Lemma nondecreasing_head x l : nondecreasing (x :: l) -> Forall (fun y => x <= y) l.
Proof.
  revert x; induction l as [|y l IH]; intros x H; [constructor|].
  destruct H as [Hxy Hrest]. constructor; [exact Hxy|].
  specialize (IH y Hrest).
  eapply Forall_impl; [|exact IH]. cbn. intros. lia.
Qed.

(** The object a call of the life of a sender is made on: it has the
    buffer size, the capacity and the clock offset the sender started
    with. *)
Lemma lifetime_nth h calls : forall s i env c r,
  sender_wf s ->
  nth_error calls i = Some (env, c) ->
  nth_error (Sender.lifetime h s calls) i = Some r ->
  exists si, sender_wf si /\
    Sender.tsOffset_ si = Sender.tsOffset_ s /\
    Sender.maxDoubles_ si = Sender.maxDoubles_ s /\
    r = Sender.call h si env c.
Proof.
  induction calls as [|[env0 c0] calls IH]; intros s i env c r Hwf Hc Hr.
  - destruct i; discriminate.
  - cbn [Sender.lifetime] in Hr. destruct i as [|i]; cbn [nth_error] in Hc, Hr.
    + injection Hc as -> ->. injection Hr as <-. exists s. auto.
    + set (s1 := Sender.after (Sender.call h s env0 c0)) in *.
      assert (Hstep : sender_wf s1 /\
                      Sender.tsOffset_ s1 = Sender.tsOffset_ s /\
                      Sender.maxDoubles_ s1 = Sender.maxDoubles_ s).
      { destruct c0 as [data count seq ts | data count |]; cbn [Sender.call].
        - destruct (CallFacts.sendWithSeq_after h env0 s data count seq ts Hwf)
            as (H1 & H2 & _ & H4 & _). auto.
        - destruct (CallFacts.sendAutoSeq_after h env0 s data count Hwf)
            as (H1 & H2 & _ & H4 & _). auto.
        - cbn. auto. }
      destruct Hstep as (H1 & H2 & H3).
      destruct (IH _ i env c r H1 Hc Hr) as (si & S1 & S2 & S3 & S4).
      exists si. split; [exact S1|]. split; [congruence|]. split; [congruence | exact S4].
Qed.

(** The time stamp of a frame emitted with the default time stamp. *)
Lemma default_stamp h s env c d :
  sender_wf s ->
  Sender.default_timestamp c = true ->
  Sender.wire (Sender.call h s env c) = Some d ->
  wire_timestamp d = Sender.monotonicNowNanosNonNegative_ s (Sender.clock_now env).
Proof.
  intros Hwf Hdef Hd. destruct c as [data count seq ts | data count |]; cbn in Hdef.
  - cbn [Sender.call] in Hd. apply Z.eqb_eq in Hdef. subst ts.
    destruct (CallFacts.sendWithSeq_after h env s data count seq INT64_MIN Hwf)
      as (_ & _ & _ & _ & _ & Hw).
    destruct (Hw d Hd) as (ds & _ & _ & _ & _ & _ & ->).
    destruct (wire_fields (u16 count) seq (stamp s env INT64_MIN)
                (payload_bytes (read_data ds (Z.to_nat (u16 count)))))
      as (_ & _ & _ & _ & Hts).
    cbv zeta in Hts. rewrite Hts. unfold stamp. rewrite Z.eqb_refl.
    apply s64_idem.
  - cbn [Sender.call] in Hd.
    destruct (CallFacts.sendAutoSeq_after h env s data count Hwf) as (_ & _ & _ & _ & Hw).
    apply (Hw d Hd).
  - discriminate.
Qed.


(** X24. As long as the sum of clock reading and offset does not
    overflow, the default time stamps are not negative.  The offset fixed
    by the constructor is the
    64-bit negation of the clock value it read if that value was negative,
    and zero otherwise.  If the clock never goes back after construction
    and, for every call, the time elapsed since construction fits a signed
    64-bit number, every frame emitted with the default time stamp during
    the life of the sender carries the clock reading plus
    [max 0 (- now0)], which is not negative. *)
Theorem default_timestamps_nonnegative (h : Sender.HostOrder)
    (maxDoubles maxPayloadBytes now0 fd : Z) (connectUdp : bool)
    (s : Sender.State) (calls : list (Sender.Env * Sender.Call)) :
  Sender.construct maxDoubles connectUdp maxPayloadBytes now0 (inr fd) = Sender.Returned s ->
  INT64_MIN <= now0 ->
  nondecreasing (now0 :: map (fun c => Sender.clock_now (fst c)) calls) ->
  Forall (fun c => Sender.clock_now (fst c) <= INT64_MAX /\
                   Sender.clock_now (fst c) - now0 <= INT64_MAX) calls ->
  Sender.tsOffset_ s = (if now0 <? 0 then s64 (- now0) else 0) /\
  forall i env c r d,
    nth_error calls i = Some (env, c) ->
    nth_error (Sender.lifetime h s calls) i = Some r ->
    Sender.default_timestamp c = true ->
    Sender.wire r = Some d ->
    Sender.tsOffset_ (Sender.after r) = Sender.tsOffset_ s /\
    wire_timestamp d = s64 (Sender.clock_now env + Sender.tsOffset_ s) /\
    wire_timestamp d = Sender.clock_now env + Z.max 0 (- now0) /\
    0 <= wire_timestamp d.
Proof.
  intros Hcons Hmin Hmono Hfit.
  destruct (CallFacts.construct_wf _ _ _ _ _ _ Hcons) as (Hwf & _ & Hoff).
  split; [exact Hoff|].
  intros i env c r d Hc Hr Hdef Hd.
  destruct (lifetime_nth h calls s i env c r Hwf Hc Hr) as (si & Hwfi & Hoffi & _ & ->).
  assert (Hin : In (env, c) calls) by (eapply nth_error_In; eassumption).
  pose proof (proj1 (Forall_forall _ _) Hfit _ Hin) as [Hmax Hel]. cbn [fst] in Hmax, Hel.
  assert (Hle : now0 <= Sender.clock_now env).
  { pose proof (nondecreasing_head _ _ Hmono) as Hall.
    apply (proj1 (Forall_forall _ _) Hall).
    apply (in_map (fun c => Sender.clock_now (fst c)) _ _ Hin). }
  assert (Hafter : Sender.tsOffset_ (Sender.after (Sender.call h si env c)) = Sender.tsOffset_ s).
  { rewrite <- Hoffi. destruct c as [data count seq ts | data count |]; cbn [Sender.call].
    - destruct (CallFacts.sendWithSeq_after h env si data count seq ts Hwfi)
        as (_ & _ & _ & H4 & _). exact H4.
    - destruct (CallFacts.sendAutoSeq_after h env si data count Hwfi)
        as (_ & _ & _ & H4 & _). exact H4.
    - reflexivity. }
  rewrite (default_stamp h si env c d Hwfi Hdef Hd).
  unfold Sender.monotonicNowNanosNonNegative_. rewrite Hoffi.
  split; [exact Hafter|]. split; [reflexivity|].
  rewrite Hoff. unfold Sender.initTimestampOffset_.
  destruct (Z.ltb_spec now0 0); wrap_arith.
Qed.

(** The second call of [timed_calls], made when the clock read -1 on a
    sender built when it read -5000, emits a frame with the time stamp
    4999. *)
Lemma default_timestamps_nonnegative_witness :
  let results := Sender.lifetime Sender.HostBig (sample_sender (-5000)) timed_calls in
  exists r d,
    nth_error results 1 = Some r /\
    Sender.wire r = Some d /\
    wire_timestamp d = -1 + Z.max 0 (- -5000) /\
    0 <= wire_timestamp d.
Proof.
  intros results.
  pose (r := nth 1 results (Sender.mkSent (sample_sender 0) (Sender.Returned 0) None)).
  pose (d := match Sender.wire r with Some d => d | None => [] end).
  assert (Hr : nth_error results 1 = Some r) by reflexivity.
  assert (Hd : Sender.wire r = Some d) by (vm_compute; reflexivity).
  destruct (default_timestamps_nonnegative Sender.HostBig 64 1400 (-5000) 3 true
              (sample_sender (-5000)) timed_calls) as [_ H].
  - reflexivity.
  - vm_compute; discriminate.
  - vm_compute. repeat split; discriminate.
  - repeat constructor; vm_compute; discriminate.
  - destruct (H 1%nat (sample_env (-1))
                (Sender.CallSendWithSeq (Some [dbl_one]) 1 42 INT64_MIN) r d
                eq_refl Hr eq_refl Hd) as (_ & _ & H3 & H4).
    exists r, d. auto.
Defined.

(** The four frames: time stamps 0, 4999, the caller's -12345, 5007. *)
Example timed_calls_stamps :
  map (fun r => option_map wire_timestamp (Sender.wire r))
      (Sender.lifetime Sender.HostBig (sample_sender (-5000)) timed_calls) =
  [Some 0; Some 4999; Some (-12345); Some 5007].
Proof. vm_compute. reflexivity. Qed.

(** * Further properties *)

(** ** The write and read helpers *)

Lemma length_object_bytes h n v : length (Sender.object_bytes h n v) = n.
Proof.
  destruct h; cbn [Sender.object_bytes]; rewrite ?length_rev; apply length_le_bytes.
Qed.

Lemma skipn_memcpy buf off src :
  (off <= length buf)%nat ->
  skipn off (memcpy buf off src) = src ++ skipn (off + length src) buf.
Proof.
  intros H. unfold memcpy.
  rewrite skipn_app, length_firstn.
  replace (off - Nat.min off (length buf))%nat with 0%nat by lia.
  rewrite (skipn_all2 (firstn off buf)) by (rewrite length_firstn; lia).
  reflexivity.
Qed.

Lemma idx_memcpy_outside buf off src j :
  (off + length src <= length buf)%nat ->
  (j < off \/ off + length src <= j)%nat ->
  idx (memcpy buf off src) j = idx buf j.
Proof.
  intros Hin Hj. unfold idx, memcpy. f_equal.
  destruct Hj as [Hlt | Hge].
  - rewrite app_nth1 by (rewrite length_firstn; lia).
    rewrite nth_firstn. destruct (Nat.ltb_spec j off); [reflexivity | lia].
  - rewrite app_nth2 by (rewrite length_firstn; lia).
    rewrite length_firstn. replace (Nat.min off (length buf)) with off by lia.
    rewrite app_nth2 by lia.
    rewrite nth_skipn. f_equal. lia.
Qed.

(** The five helpers as plain copies of big-endian bytes. *)
Lemma write_helpers_memcpy h buf off v :
  Sender.writeBE16_ h buf off v = memcpy buf off (be_bytes 2 v) /\
  Sender.writeBE32u_ h buf off v = memcpy buf off (be_bytes 4 v) /\
  Sender.writeBE32_fromBits_ h buf off v = memcpy buf off (be_bytes 4 v) /\
  Sender.writeBE64_fromBits_ h buf off v = memcpy buf off (be_bytes 8 v) /\
  Sender.writeDoubleBE_ h buf off v = memcpy buf off (be_bytes 8 v).
Proof.
  unfold Sender.writeBE16_, Sender.writeBE32_fromBits_, Sender.writeBE32u_,
    Sender.writeBE64_fromBits_, Sender.writeDoubleBE_. cbv zeta.
  rewrite be16_wire, !be32_wire, !be64_wire, be_bytes_u32, be_bytes_u64.
  repeat match goal with |- _ /\ _ => split end; reflexivity.
Qed.

(** X1. What a write helper stores at an offset inside the buffer, the
    big-endian read helper of the same width reads back from that offset,
    on a host of either byte order: 16 and 32 bits, the bits of a signed
    32- or 64-bit number, and the bit pattern of a double. *)
Theorem write_then_read (h : Sender.HostOrder) (buf : list byte) (off : nat) (v : Z) :
  (off <= length buf)%nat ->
  Receiver.read16 (skipn off (Sender.writeBE16_ h buf off v)) Receiver.Big = u16 v /\
  Receiver.read32 (skipn off (Sender.writeBE32u_ h buf off v)) Receiver.Big = u32 v /\
  s32 (Receiver.read32 (skipn off (Sender.writeBE32_fromBits_ h buf off v)) Receiver.Big)
    = s32 v /\
  s64 (Receiver.read64 (skipn off (Sender.writeBE64_fromBits_ h buf off v)) Receiver.Big)
    = s64 v /\
  Receiver.readDouble (skipn off (Sender.writeDoubleBE_ h buf off v)) Receiver.Big = u64 v.
Proof.
  intros Hoff.
  destruct (write_helpers_memcpy h buf off v) as (-> & -> & -> & -> & ->).
  rewrite !skipn_memcpy by exact Hoff.
  unfold Receiver.readDouble.
  rewrite read16_be, !read32_be, !read64_be, s32_u32, s64_u64.
  repeat match goal with |- _ /\ _ => split end; reflexivity.
Qed.

Lemma write_then_read_witness :
  let buf := Sender.buffer_ (sample_sender 0) in
  Receiver.read16 (skipn 6 (Sender.writeBE16_ Sender.HostLittle buf 6 dbl_neg_inf))
    Receiver.Big = u16 dbl_neg_inf /\
  Receiver.read32 (skipn 6 (Sender.writeBE32u_ Sender.HostLittle buf 6 dbl_neg_inf))
    Receiver.Big = u32 dbl_neg_inf /\
  s32 (Receiver.read32
         (skipn 6 (Sender.writeBE32_fromBits_ Sender.HostLittle buf 6 dbl_neg_inf))
         Receiver.Big) = s32 dbl_neg_inf /\
  s64 (Receiver.read64
         (skipn 6 (Sender.writeBE64_fromBits_ Sender.HostLittle buf 6 dbl_neg_inf))
         Receiver.Big) = s64 dbl_neg_inf /\
  Receiver.readDouble (skipn 6 (Sender.writeDoubleBE_ Sender.HostLittle buf 6 dbl_neg_inf))
    Receiver.Big = u64 dbl_neg_inf.
Proof.
  intros buf.
  apply (write_then_read Sender.HostLittle buf 6 dbl_neg_inf).
  vm_compute. repeat constructor.
Defined.

(** X2. A write helper whose target lies inside the buffer, up to its
    very end, leaves the length of the buffer and every byte outside its
    target as they were; the target is 2 bytes for [writeBE16_], 4 for the
    32-bit helpers, 8 for the 64-bit one and for a double. *)
Theorem write_is_local (h : Sender.HostOrder) (buf : list byte) (off j : nat) (v : Z) :
  let keeps (b : list byte) (n : nat) :=
    (off + n <= length buf)%nat ->
    length b = length buf /\
    ((j < off \/ off + n <= j)%nat -> idx b j = idx buf j) in
  keeps (Sender.writeBE16_ h buf off v) 2%nat /\
  keeps (Sender.writeBE32u_ h buf off v) 4%nat /\
  keeps (Sender.writeBE32_fromBits_ h buf off v) 4%nat /\
  keeps (Sender.writeBE64_fromBits_ h buf off v) 8%nat /\
  keeps (Sender.writeDoubleBE_ h buf off v) 8%nat.
Proof.
  intros keeps.
  destruct (write_helpers_memcpy h buf off v) as (-> & -> & -> & -> & ->).
  unfold keeps.
  repeat match goal with |- _ /\ _ => split end; intros Hoff;
    (split;
     [apply memcpy_length; rewrite length_be_bytes; lia
     |intros Hj; apply idx_memcpy_outside; rewrite length_be_bytes; lia]).
Qed.

(** A buffer of 16 bytes: two bytes written at offset 14, four at offset
    12 and eight at offset 8 reach its end and leave the byte before the
    target alone. *)
Lemma write_is_local_witness :
  let buf := map byte.of_Z [1; 2; 3; 4; 5; 6; 7; 8; 9; 10; 11; 12; 13; 14; 15; 16] in
  (length (Sender.writeBE16_ Sender.HostLittle buf 14 0xABCD) = 16%nat /\
   idx (Sender.writeBE16_ Sender.HostLittle buf 14 0xABCD) 13 = 14) /\
  (length (Sender.writeBE32u_ Sender.HostLittle buf 12 0xABCD) = 16%nat /\
   idx (Sender.writeBE32u_ Sender.HostLittle buf 12 0xABCD) 11 = 12) /\
  (length (Sender.writeDoubleBE_ Sender.HostBig buf 8 dbl_neg_inf) = 16%nat /\
   idx (Sender.writeDoubleBE_ Sender.HostBig buf 8 dbl_neg_inf) 7 = 8).
Proof.
  intros buf.
  destruct (write_is_local Sender.HostLittle buf 14 13 0xABCD) as (H16 & _).
  destruct (write_is_local Sender.HostLittle buf 12 11 0xABCD) as (_ & H32 & _).
  destruct (write_is_local Sender.HostBig buf 8 7 dbl_neg_inf) as (_ & _ & _ & _ & H64).
  split; [|split].
  - destruct H16 as [Hl Hi]; [vm_compute; repeat constructor|].
    split; [exact Hl | rewrite Hi; [reflexivity | left; repeat constructor]].
  - destruct H32 as [Hl Hi]; [vm_compute; repeat constructor|].
    split; [exact Hl | rewrite Hi; [reflexivity | left; repeat constructor]].
  - destruct H64 as [Hl Hi]; [vm_compute; repeat constructor|].
    split; [exact Hl | rewrite Hi; [reflexivity | left; repeat constructor]].
Defined.

(** ** Host byte order *)

Lemma encodeFrame_host h1 h2 buf data count seq ts :
  Sender.encodeFrame h1 buf data count seq ts = Sender.encodeFrame h2 buf data count seq ts.
Proof.
  unfold Sender.encodeFrame. cbv zeta. f_equal.
  assert (Hstep : forall l b,
            fold_left (fun b i => Sender.writeDoubleBE_ h1 b (20 + i * 8) (nth i data 0)) l b =
            fold_left (fun b i => Sender.writeDoubleBE_ h2 b (20 + i * 8) (nth i data 0)) l b).
  { induction l as [|i l IH]; intros b; [reflexivity|]. cbn [fold_left].
    rewrite IH. f_equal.
    destruct (write_helpers_memcpy h1 b (20 + i * 8) (nth i data 0)) as (_ & _ & _ & _ & ->).
    destruct (write_helpers_memcpy h2 b (20 + i * 8) (nth i data 0)) as (_ & _ & _ & _ & ->).
    reflexivity. }
  rewrite Hstep. f_equal.
  repeat match goal with
  | |- context [Sender.writeBE64_fromBits_ ?h ?b ?o ?v] =>
      rewrite (proj1 (proj2 (proj2 (proj2 (write_helpers_memcpy h b o v)))))
  | |- context [Sender.writeBE32_fromBits_ ?h ?b ?o ?v] =>
      rewrite (proj1 (proj2 (proj2 (write_helpers_memcpy h b o v))))
  | |- context [Sender.writeBE32u_ ?h ?b ?o ?v] =>
      rewrite (proj1 (proj2 (write_helpers_memcpy h b o v)))
  | |- context [Sender.writeBE16_ ?h ?b ?o ?v] =>
      rewrite (proj1 (write_helpers_memcpy h b o v))
  end.
  reflexivity.
Qed.

(** X3. The sender behaves the same on a little-endian and on a
    big-endian host: for the same object, arguments and answers of the
    system, [sendWithSeq] and [sendAutoSeq] end the same way, leave the
    same object and hand the same bytes to the socket. *)
Theorem host_order_is_invisible (h1 h2 : Sender.HostOrder) (env : Sender.Env)
    (s : Sender.State) (data : option (list double)) (count seq ts : Z) :
  Sender.sendWithSeq h1 env s data count seq ts =
    Sender.sendWithSeq h2 env s data count seq ts /\
  Sender.sendAutoSeq h1 env s data count = Sender.sendAutoSeq h2 env s data count.
Proof.
  assert (H : forall s seq ts,
            Sender.sendWithSeq h1 env s data count seq ts =
            Sender.sendWithSeq h2 env s data count seq ts).
  { intros s0 seq0 ts0. unfold Sender.sendWithSeq.
    destruct data as [ds|]; [|reflexivity].
    now rewrite (encodeFrame_host h1 h2). }
  split; [apply H | unfold Sender.sendAutoSeq; apply H].
Qed.

(** ** Byte swapping *)

Lemma bswap64_range x : Sender.bswap64_ x = u64 (Sender.bswap64_ x).
Proof.
  unfold Sender.bswap64_, u64. unmask. bits_bytewise.
Qed.

Lemma read16_le p v : Receiver.read16 (Sender.le_bytes 2 v ++ p) Receiver.Little = u16 v.
Proof.
  cbn [Sender.le_bytes app]. unfold Receiver.read16, idx. cbn [nth].
  rewrite !byte.unsigned_of_Z. unfold byte.wrap, u16.
  bits_bytewise.
Qed.

Lemma read32_le p v : Receiver.read32 (Sender.le_bytes 4 v ++ p) Receiver.Little = u32 v.
Proof.
  cbn [Sender.le_bytes app]. unfold Receiver.read32, idx. cbn [nth].
  rewrite !byte.unsigned_of_Z. unfold byte.wrap, u32.
  bits_bytewise.
Qed.

Lemma read64_le p v : Receiver.read64 (Sender.le_bytes 8 v ++ p) Receiver.Little = u64 v.
Proof.
  cbn [Sender.le_bytes app].
  unfold Receiver.read64, Receiver.read64_step, idx. cbn [nth fold_left].
  rewrite !byte.unsigned_of_Z. unfold byte.wrap, u64.
  bits_bytewise.
Qed.

(** X4. [bswap64_] reverses the eight bytes of a 64-bit number: its
    result fits 64 bits, its bytes in memory are those of the argument in
    the opposite order, and swapping twice gives back the argument's low
    64 bits.  [hostToBE64_] is its own inverse on either host. *)
Theorem bswap64_reverses (h : Sender.HostOrder) (x : Z) :
  0 <= Sender.bswap64_ x < 2 ^ 64 /\
  Sender.le_bytes 8 (Sender.bswap64_ x) = rev (Sender.le_bytes 8 x) /\
  Sender.bswap64_ (Sender.bswap64_ x) = u64 x /\
  Sender.hostToBE64_ h (Sender.hostToBE64_ h (u64 x)) = u64 x.
Proof.
  assert (Hrev : forall y, Sender.le_bytes 8 (Sender.bswap64_ y) = rev (Sender.le_bytes 8 y)).
  { intros y. exact (be64_wire Sender.HostLittle y). }
  assert (Hinv : forall y, Sender.bswap64_ (Sender.bswap64_ y) = u64 y).
  { intros y. rewrite bswap64_range.
    rewrite <- (read64_le [] (Sender.bswap64_ (Sender.bswap64_ y))).
    rewrite <- (read64_le [] y).
    now rewrite !Hrev, rev_involutive. }
  split; [rewrite bswap64_range; apply Z.mod_pos_bound; lia|].
  split; [apply Hrev|]. split; [apply Hinv|].
  unfold Sender.hostToBE64_.
  destruct h;
    [ change (Sender.isLittleEndian_ Sender.HostLittle) with true
    | change (Sender.isLittleEndian_ Sender.HostBig) with false ]; cbv iota.
  - rewrite Hinv. unfold u64. now rewrite Z.mod_mod by lia.
  - reflexivity.
Qed.

(** ** The receiver in either byte order *)

Lemma length_order_bytes e n v : length (order_bytes e n v) = n.
Proof. destruct e; [apply length_be_bytes | apply length_le_bytes]. Qed.

Lemma read16_order e p v : Receiver.read16 (order_bytes e 2 v ++ p) e = u16 v.
Proof. destruct e; [apply read16_be | apply read16_le]. Qed.

Lemma read32_order e p v : Receiver.read32 (order_bytes e 4 v ++ p) e = u32 v.
Proof. destruct e; [apply read32_be | apply read32_le]. Qed.

Lemma read64_order e p v : Receiver.read64 (order_bytes e 8 v ++ p) e = u64 v.
Proof. destruct e; [apply read64_be | apply read64_le]. Qed.

Lemma layout_offsets e n seq ts (r : list byte) :
  let d := header_layout e n seq ts ++ r in
  d = order_bytes e 4 Receiver.MAGIC_UDPD ++ order_bytes e 2 Receiver.VERSION_1
        ++ order_bytes e 2 n ++ order_bytes e 4 seq ++ order_bytes e 8 ts ++ r /\
  skipn 4 d = order_bytes e 2 Receiver.VERSION_1 ++ order_bytes e 2 n
                ++ order_bytes e 4 seq ++ order_bytes e 8 ts ++ r /\
  skipn 6 d = order_bytes e 2 n ++ order_bytes e 4 seq ++ order_bytes e 8 ts ++ r /\
  skipn 8 d = order_bytes e 4 seq ++ order_bytes e 8 ts ++ r /\
  skipn 12 d = order_bytes e 8 ts ++ r /\
  skipn 20 d = r.
Proof.
  cbv zeta. unfold header_layout. rewrite <- !app_assoc.
  destruct e; repeat match goal with |- _ /\ _ => split end; reflexivity.
Qed.

Lemma readDouble_layout e ds r i :
  (i < length ds)%nat ->
  Receiver.readDouble (skipn (i * 8) (payload_layout e ds ++ r)) e = u64 (nth i ds 0).
Proof.
  revert i; induction ds as [|d ds IH]; intros i Hi; cbn [length] in Hi; [lia|].
  unfold payload_layout. cbn [map concat]. rewrite <- app_assoc.
  destruct i as [|i].
  - cbn [Nat.mul skipn nth]. apply read64_order.
  - replace (skipn (S i * 8) (order_bytes e 8 d ++ concat (map (order_bytes e 8) ds) ++ r))
      with (skipn (i * 8) (payload_layout e ds ++ r))
      by (destruct e; reflexivity).
    cbn [nth]. apply IH. lia.
Qed.

Lemma magic_in_other_order e r :
  Receiver.read32 (order_bytes e 4 Receiver.MAGIC_UDPD ++ r) (other_order e) = 0x44504455.
Proof. destruct e; reflexivity. Qed.

(** X5. A receiver decodes a frame laid out in its configured byte order,
    big or little: with [n] doubles after a header that announces [n], it
    accepts the datagram and stores the low 32 bits of the sequence, the
    low 64 bits of the time stamp and the bit pattern of every double,
    whatever follows the frame.  The same bytes given to a receiver of the
    other byte order are dropped: it reads the magic as 0x44504455. *)
Theorem decode_in_configured_order (e : Receiver.Endian) (n seq ts : Z)
    (ds : list double) (r : list byte) (received : Z) :
  0 <= n < 2 ^ 16 -> length ds = Z.to_nat n -> 20 + n * 8 <= received ->
  let d := header_layout e n seq ts ++ payload_layout e ds ++ r in
  Receiver.decode e d received = Some (Receiver.mkPacket (u32 seq) (u64 ts) (map u64 ds)) /\
  Receiver.decode (other_order e) d received = None.
Proof.
  intros Hn Hlen Hrec d.
  destruct (layout_offsets e n seq ts (payload_layout e ds ++ r))
    as (H0 & H4 & H6 & H8 & H12 & H20).
  fold d in H0, H4, H6, H8, H12, H20.
  split.
  - assert (Hmagic : Receiver.read32 d e = Receiver.MAGIC_UDPD)
      by (rewrite H0; apply read32_order).
    assert (Hver : Receiver.read16 (skipn 4 d) e = Receiver.VERSION_1)
      by (rewrite H4; apply read16_order).
    assert (Hcount : Receiver.read16 (skipn 6 d) e = n)
      by (rewrite H6, read16_order; apply Z.mod_small, Hn).
    rewrite ReceiverFacts.decode_accepts; rewrite ?Hcount; try lia; try assumption.
    rewrite H8, H12, H20, read32_order, read64_order. do 2 f_equal.
    rewrite <- Hlen.
    rewrite <- (SenderFacts.read_data_all ds) at 2.
    unfold read_data. rewrite map_map.
    apply map_ext_in. intros i Hi. apply in_seq in Hi.
    apply readDouble_layout. lia.
  - apply ReceiverFacts.decode_bad_magic.
    rewrite H0, magic_in_other_order. discriminate.
Qed.

(** A little-endian frame of two doubles, followed by one stray byte. *)
Lemma decode_in_configured_order_witness :
  let d := header_layout Receiver.Little 2 (-7) 1000
             ++ payload_layout Receiver.Little [dbl_quiet_nan; dbl_neg_zero] ++ [Byte.xff] in
  Receiver.decode Receiver.Little d 37 =
    Some (Receiver.mkPacket (u32 (-7)) (u64 1000) (map u64 [dbl_quiet_nan; dbl_neg_zero])) /\
  Receiver.decode (other_order Receiver.Little) d 37 = None.
Proof.
  apply (decode_in_configured_order Receiver.Little 2 (-7) 1000
           [dbl_quiet_nan; dbl_neg_zero] [Byte.xff] 37).
  - vm_compute. split; [discriminate | reflexivity].
  - reflexivity.
  - vm_compute. discriminate.
Defined.

(** ** What the loop stores *)

Lemma lor_below a b n :
  0 <= n -> 0 <= a < 2 ^ n -> 0 <= b < 2 ^ n -> 0 <= Z.lor a b < 2 ^ n.
Proof.
  intros Hn Ha Hb. split; [apply Z.lor_nonneg; lia|].
  destruct (Z.eq_dec (Z.lor a b) 0) as [-> | Hnz]; [lia|].
  apply Z.log2_lt_pow2; [pose proof (proj2 (Z.lor_nonneg a b) ltac:(lia)); lia|].
  rewrite Z.log2_lor by lia.
  destruct (Z.eq_dec a 0) as [-> | Ha0]; destruct (Z.eq_dec b 0) as [-> | Hb0];
    cbn [Z.log2]; try (rewrite Z.lor_0_l in Hnz || rewrite Z.lor_0_r in Hnz); try lia.
  - rewrite Z.max_r by apply Z.log2_nonneg. apply Z.log2_lt_pow2; lia.
  - rewrite Z.max_l by apply Z.log2_nonneg. apply Z.log2_lt_pow2; lia.
  - apply Z.max_lub_lt; apply Z.log2_lt_pow2; lia.
Qed.

Lemma idx_range p i : 0 <= idx p i < 2 ^ 8.
Proof.
  unfold idx. rewrite <- byte.wrap_unsigned. apply byte.wrap_range.
Qed.

Lemma read32_range p e : 0 <= Receiver.read32 p e < 2 ^ 32.
Proof.
  assert (Hb : forall i, 0 <= idx p i < 2 ^ 32)
    by (intros i; pose proof (idx_range p i); change (2 ^ 8) with 256 in *;
        change (2 ^ 32) with 4294967296; lia).
  assert (Hu : forall x, 0 <= u32 x < 2 ^ 32) by (intros x; apply Z.mod_pos_bound; lia).
  destruct e; unfold Receiver.read32; repeat apply lor_below; auto; lia.
Qed.

Lemma read64_range p e : 0 <= Receiver.read64 p e < 2 ^ 64.
Proof.
  assert (Hb : forall i, 0 <= idx p i < 2 ^ 64)
    by (intros i; pose proof (idx_range p i); change (2 ^ 8) with 256 in *;
        change (2 ^ 64) with 18446744073709551616; lia).
  assert (Hu : forall x, 0 <= u64 x < 2 ^ 64) by (intros x; apply Z.mod_pos_bound; lia).
  destruct e; unfold Receiver.read64, Receiver.read64_step; cbn [fold_left];
    repeat apply lor_below; auto; lia.
Qed.

Lemma decode_some e p received pkt :
  Receiver.decode e p received = Some pkt ->
  20 <= received /\
  Receiver.read32 p e = Receiver.MAGIC_UDPD /\
  Receiver.read16 (skipn 4 p) e = Receiver.VERSION_1 /\
  20 + Receiver.read16 (skipn 6 p) e * 8 <= received /\
  pkt = Receiver.mkPacket (Receiver.read32 (skipn 8 p) e) (Receiver.read64 (skipn 12 p) e)
          (map (fun i => Receiver.readDouble (skipn (i * 8) (skipn 20 p)) e)
               (List.seq 0 (Z.to_nat (Receiver.read16 (skipn 6 p) e)))).
Proof.
  unfold Receiver.decode, Receiver.HEADER_BYTES. change (skipn 0 p) with p.
  destruct (Z.ltb_spec received 20); [discriminate|].
  destruct (Z.eqb_spec (Receiver.read32 p e) Receiver.MAGIC_UDPD); [|discriminate].
  destruct (Z.eqb_spec (Receiver.read16 (skipn 4 p) e) Receiver.VERSION_1); [|discriminate].
  cbn [negb].
  destruct (Z.gtb_spec (20 + Receiver.read16 (skipn 6 p) e * 8) received); [discriminate|].
  intros Hp. injection Hp as <-. repeat split; auto; lia.
Qed.

(** X6. Whatever the loop stores is well formed and was carried by the
    datagram: after a loop turn that receives a datagram, either the slot
    and the flag are as before, or the flag is set and the stored packet
    has at most 65535 doubles, all of them inside the received bytes
    ([20 + 8 * size <= received]), a sequence below [2^32], a time stamp
    below [2^64] and 64-bit patterns as doubles. *)
Theorem stored_packet_fits (r : Receiver.State) (stopped : bool) (d : list byte) :
  let r' := Receiver.run_iteration r stopped (Receiver.Received d) in
  let pkt := Receiver.latest_ r' in
  (Receiver.latest_ r' = Receiver.latest_ r /\ Receiver.hasData_ r' = Receiver.hasData_ r) \/
  (Receiver.hasData_ r' = true /\
   Z.of_nat (length (Receiver.data pkt)) <= 65535 /\
   20 + 8 * Z.of_nat (length (Receiver.data pkt)) <= Z.of_nat (length d) /\
   0 <= Receiver.seq pkt < 2 ^ 32 /\
   0 <= Receiver.timestampNanos pkt < 2 ^ 64 /\
   Forall is_double (Receiver.data pkt)).
Proof.
  cbv zeta. destruct stopped; [left; split; reflexivity|].
  rewrite ReceiverFacts.run_iteration_received. cbv zeta.
  destruct (Receiver.decode (Receiver.endian_ r) d (Z.of_nat (length d))) as [pkt|] eqn:E;
    [right | left; split; reflexivity].
  destruct (decode_some _ _ _ _ E) as (H20 & _ & _ & Hfit & ->).
  pose proof (read16_range (skipn 6 d) (Receiver.endian_ r)) as Hc.
  cbn [Receiver.publish Receiver.latest_ Receiver.hasData_ Receiver.data
       Receiver.seq Receiver.timestampNanos].
  rewrite length_map, length_seq.
  change (2 ^ 16) with 65536 in Hc.
  repeat match goal with |- _ /\ _ => split end; try reflexivity; try lia;
    try apply read32_range; try apply read64_range.
  apply Forall_forall. intros x Hx. apply in_map_iff in Hx as (i & <- & _).
  apply read64_range.
Qed.

(** X7. What the buffer held before a datagram arrives has no effect on
    what the loop turn stores: two receivers that differ only in the
    content of [recvBuffer_] end the turn with the same slot and flag, and
    with the same buffer content up to the length of the datagram. *)
Theorem stale_buffer_is_ignored (r : Receiver.State) (old : list byte)
    (stopped : bool) (d : list byte) :
  let r1 := Receiver.run_iteration r stopped (Receiver.Received d) in
  let r2 := Receiver.run_iteration (Receiver.set_recvBuffer r old) stopped
              (Receiver.Received d) in
  Receiver.latest_ r2 = Receiver.latest_ r1 /\
  Receiver.hasData_ r2 = Receiver.hasData_ r1 /\
  Receiver.running_ r2 = Receiver.running_ r1 /\
  firstn (length d) (Receiver.recvBuffer_ r2) = d /\
  firstn (length d) (Receiver.recvBuffer_ r1) = d.
Proof.
  cbv zeta.
  rewrite !ReceiverFacts.recvBuffer_received, !memcpy_0.
  rewrite !firstn_app, !firstn_all, Nat.sub_diag, !firstn_O, !app_nil_r.
  destruct stopped; [repeat split|].
  rewrite !ReceiverFacts.run_iteration_received. cbv zeta.
  cbn [Receiver.set_recvBuffer Receiver.endian_].
  destruct (Receiver.decode (Receiver.endian_ r) d (Z.of_nat (length d)));
    repeat split.
Qed.

(** ** What the loop keeps *)

Lemma run_iteration_keeps r stopped res :
  Receiver.endian_ (Receiver.run_iteration r stopped res) = Receiver.endian_ r /\
  (fits (length (Receiver.recvBuffer_ r)) (stopped, res) ->
   length (Receiver.recvBuffer_ (Receiver.run_iteration r stopped res)) =
   length (Receiver.recvBuffer_ r)).
Proof.
  unfold Receiver.run_iteration, fits. cbn [snd].
  destruct res as [err | d]; [destruct stopped; split; reflexivity|].
  assert (Hlen : (length d <= length (Receiver.recvBuffer_ r))%nat ->
                 length (memcpy (Receiver.recvBuffer_ r) 0 d) = length (Receiver.recvBuffer_ r))
    by (intros H; apply memcpy_length; lia).
  destruct stopped; cbn [Receiver.set_recvBuffer Receiver.set_running Receiver.endian_
                         Receiver.recvBuffer_]; [split; auto|].
  destruct (Receiver.decode _ _ _); cbn; split; auto.
Qed.

(** X8. The loop keeps the receiver's configuration: it never changes the
    byte order it was configured with, never clears the has-data flag once
    it is set, and, as long as every datagram fits the buffer, never
    changes the size of the buffer. *)
Theorem loop_keeps_configuration (r : Receiver.State)
    (turns : list (bool * Receiver.RecvResult)) :
  Receiver.endian_ (Receiver.run r turns) = Receiver.endian_ r /\
  implb (Receiver.hasData_ r) (Receiver.hasData_ (Receiver.run r turns)) = true /\
  (Forall (fits (length (Receiver.recvBuffer_ r))) turns ->
   length (Receiver.recvBuffer_ (Receiver.run r turns)) = length (Receiver.recvBuffer_ r)).
Proof.
  split; [|split].
  - revert r; induction turns as [|[stopped res] rest IH]; intros r; cbn [Receiver.run];
      [reflexivity|].
    destruct (Receiver.running_ r); [|reflexivity].
    rewrite IH. apply run_iteration_keeps.
  - destruct (Receiver.hasData_ r) eqn:Hd; [|reflexivity].
    cbn [implb]. apply ReceiverFacts.run_hasData, Hd.
  - revert r; induction turns as [|[stopped res] rest IH]; intros r Hall; cbn [Receiver.run];
      [reflexivity|].
    destruct (Receiver.running_ r); [|reflexivity].
    inversion Hall as [|t ts Ht Hrest]; subst.
    pose proof (proj2 (run_iteration_keeps r stopped res) Ht) as Hl.
    rewrite IH; [exact Hl | rewrite Hl; exact Hrest].
Qed.

(** A big-endian receiver with a buffer of 2048 bytes that has stored a
    packet, then a damaged datagram, a receive error, a truncated datagram
    and a stop: byte order, flag and buffer size are as before. *)
Lemma loop_keeps_configuration_witness :
  let r := Receiver.run sample_receiver (deliveries [sample_datagram 5]) in
  let turns :=
    [(false, Receiver.Received bad_magic_datagram);
     (false, Receiver.SocketError 10035);
     (false, Receiver.Received (firstn 19 (sample_datagram 9)));
     (true, Receiver.Received (sample_datagram 7))] in
  Receiver.hasData_ r = true /\
  Receiver.endian_ (Receiver.run r turns) = Receiver.Big /\
  Receiver.hasData_ (Receiver.run r turns) = true /\
  length (Receiver.recvBuffer_ (Receiver.run r turns)) = 2048%nat.
Proof.
  intros r turns.
  destruct (loop_keeps_configuration r turns) as (He & Hd & Hl).
  assert (Hr : Receiver.hasData_ r = true) by (vm_compute; reflexivity).
  split; [exact Hr|]. split; [rewrite He; vm_compute; reflexivity|].
  split.
  - rewrite Hr in Hd. exact Hd.
  - rewrite Hl; [vm_compute; reflexivity|].
    repeat first [apply Forall_cons | apply Forall_nil]; vm_compute; try exact I;
      repeat constructor.
Defined.

Lemma run_stopped r turns : Receiver.running_ r = false -> Receiver.run r turns = r.
Proof.
  intros H. destruct turns as [|[stopped res] turns]; cbn [Receiver.run];
    [|rewrite H]; reflexivity.
Qed.

Lemma run_app r turns1 turns2 :
  Receiver.run r (turns1 ++ turns2) = Receiver.run (Receiver.run r turns1) turns2.
Proof.
  revert r; induction turns1 as [|[stopped res] turns1 IH]; intros r; [reflexivity|].
  cbn [app Receiver.run].
  destruct (Receiver.running_ r) eqn:Hrun; [apply IH|].
  symmetry. apply run_stopped, Hrun.
Qed.

(** X9. A [stop] ends the loop, and at most the datagram of the turn in
    flight is stored after it.  [stop] clears [running_] from another
    thread; the loop looks at the flag at the top of a turn and once more
    right after [recvfrom].  A flag cleared while [recvfrom] runs makes
    the turn drop what it received: slot and has-data flag stay as the
    turns before left them.  A flag cleared later in the turn, after that
    check, lets the turn run to its end as if nothing had happened, so
    that it may still store its datagram.  A flag cleared between two
    turns stores nothing.  In all three cases the loop ends there:
    nothing that arrives later is stored, and [running_] is false. *)
Theorem stop_ends_the_loop (r : Receiver.State) (res : Receiver.RecvResult)
    (before later : list (bool * Receiver.RecvResult)) :
  let r0 := Receiver.run r before in
  (let r' := Receiver.run r (before ++ (true, res) :: later) in
   Receiver.latest_ r' = Receiver.latest_ r0 /\
   Receiver.hasData_ r' = Receiver.hasData_ r0 /\
   Receiver.running_ r' = false) /\
  (let r' := Receiver.run (Receiver.run_iteration (Receiver.stop r0) false res) later in
   r' = Receiver.stop (Receiver.run_iteration r0 false res)) /\
  Receiver.run (Receiver.stop r0) later = Receiver.stop r0.
Proof.
  cbv zeta. split; [|split].
  - rewrite run_app. generalize (Receiver.run r before). intros r0.
    cbn [Receiver.run].
    destruct (Receiver.running_ r0) eqn:Hrun; [|repeat split; exact Hrun].
    rewrite run_stopped by (destruct res; reflexivity).
    destruct res; repeat split.
  - generalize (Receiver.run r before). intros r0.
    assert (Hturn : Receiver.run_iteration (Receiver.stop r0) false res =
                    Receiver.stop (Receiver.run_iteration r0 false res)).
    { unfold Receiver.run_iteration, Receiver.stop.
      destruct res as [err | d]; [reflexivity|].
      cbn [Receiver.set_running Receiver.set_recvBuffer Receiver.recvBuffer_
           Receiver.endian_].
      destruct (Receiver.decode _ _ _); reflexivity. }
    rewrite Hturn. apply run_stopped. reflexivity.
  - apply run_stopped. reflexivity.
Qed.

(** ** Starting and stopping the receiver's socket *)

Module ReceiverSocketFacts.
Import ReceiverSocket.

Lemma remove_one_head fd l : remove_one fd (fd :: l) = l.
Proof. cbn [remove_one]. now rewrite Z.eqb_refl. Qed.

Lemma stop_fields h os :
  running_ (fst (stop h os)) = false /\
  sockfd_ (fst (stop h os)) = None /\
  wsaInitialized_ (fst (stop h os)) = false /\
  host_ (fst (stop h os)) = host_ h.
Proof.
  unfold stop, close_held, cleanup_wsa.
  destruct h as [host run [fd|] wsa]; destruct run, wsa; cbn; repeat split.
Qed.

End ReceiverSocketFacts.

(** X10. [start] on a receiver that is not running, fresh or left half
    started by a failed [start], returns true exactly when WSAStartup,
    socket, the address conversion (not needed for the host 0.0.0.0) and
    bind all succeed, and exactly then the receiver is running afterwards;
    this is the flag the loop model takes as [setup_ok].  [start] on a
    running receiver changes nothing and returns true. *)
Theorem start_succeeds_iff_setup (env : ReceiverSocket.StartEnv) (host : string)
    (fd : option Z) (wsa : bool) (os : ReceiverSocket.Os)
    (bufferSize : Z) (e : Receiver.Endian) :
  (let '(h', os', ok) :=
     ReceiverSocket.start env (ReceiverSocket.mkHandle host false fd wsa) os in
   ok = ReceiverSocket.setup_succeeds env host /\
   ReceiverSocket.running_ h' = ok /\
   Receiver.start (Receiver.construct bufferSize e) ok =
     (Receiver.set_running (Receiver.construct bufferSize e) ok, ok)) /\
  ReceiverSocket.start env (ReceiverSocket.mkHandle host true fd wsa) os =
    (ReceiverSocket.mkHandle host true fd wsa, os, true).
Proof.
  split; [|reflexivity].
  unfold ReceiverSocket.start, ReceiverSocket.setup_succeeds, Receiver.start.
  cbn [ReceiverSocket.running_ ReceiverSocket.host_ ReceiverSocket.sockfd_
       ReceiverSocket.wsaInitialized_].
  destruct (ReceiverSocket.wsa_startup env =? 0), (ReceiverSocket.socket_ret env) as [s|],
    (String.eqb host "0.0.0.0"), (ReceiverSocket.inet_pton_ret env =? 1),
    (ReceiverSocket.bind_ok env); cbn [negb andb orb ReceiverSocket.running_];
    repeat split.
Qed.

(** X11. [stop] releases what the receiver holds, from any state, running
    or half started: afterwards it is not running, holds no socket and no
    Winsock reference, and a second [stop] changes nothing.  A [start] on
    a fresh receiver followed by [stop] gives back to the system exactly
    what [start] took, whether [start] succeeded or failed at any step. *)
Theorem stop_releases_everything (env : ReceiverSocket.StartEnv) (host : string)
    (h : ReceiverSocket.Handle) (os : ReceiverSocket.Os) :
  (let '(h', os') := ReceiverSocket.stop h os in
   ReceiverSocket.running_ h' = false /\
   ReceiverSocket.sockfd_ h' = None /\
   ReceiverSocket.wsaInitialized_ h' = false /\
   ReceiverSocket.stop h' os' = (h', os')) /\
  (let '(h1, os1, ok) := ReceiverSocket.start env (ReceiverSocket.construct host) os in
   ReceiverSocket.stop h1 os1 = (ReceiverSocket.construct host, os)).
Proof.
  split.
  - unfold ReceiverSocket.stop, ReceiverSocket.close_held, ReceiverSocket.cleanup_wsa.
    destruct h as [hst run [fd|] wsa]; destruct run, wsa; cbn; repeat split.
  - unfold ReceiverSocket.start, ReceiverSocket.construct.
    cbn [ReceiverSocket.running_ ReceiverSocket.host_ ReceiverSocket.sockfd_
         ReceiverSocket.wsaInitialized_].
    destruct os as [users socks].
    destruct (ReceiverSocket.wsa_startup env =? 0); cbn [negb]; [|reflexivity].
    destruct (ReceiverSocket.socket_ret env) as [s|]; [|reflexivity].
    destruct (negb (String.eqb host "0.0.0.0") && negb (ReceiverSocket.inet_pton_ret env =? 1))%bool;
      [|destruct (ReceiverSocket.bind_ok env); cbn [negb]];
      unfold ReceiverSocket.stop, ReceiverSocket.close_held, ReceiverSocket.cleanup_wsa;
      cbn; rewrite Z.eqb_refl; reflexivity.
Qed.

(** ** When the sender emits, and what *)

(** X12. [sendWithSeq] hands a datagram to the socket exactly when the
    array is not null, [0 < count <= capacity], the socket is open and the
    send call does not fail; it then returns what the send call returned.
    A null array is an argument error whatever the other arguments are,
    and a failing send call is a runtime error that names the system's
    error text. *)
Theorem emits_exactly_when_valid (h : Sender.HostOrder) (env : Sender.Env)
    (s : Sender.State) (data : option (list double)) (count seq ts : Z) :
  let r := Sender.sendWithSeq h env s data count seq ts in
  let valid :=
    match data with Some _ => true | None => false end
    && (0 <? count) && (count <=? Sender.maxDoubles_ s)
    && Sender.isOpen_ s && (0 <=? Sender.send_result env) in
  (match Sender.wire r with Some _ => true | None => false end = valid) /\
  (valid = true -> Sender.outcome r = Sender.Returned (Sender.send_result env)) /\
  (data = None -> Sender.outcome r = Sender.InvalidArgument "data is null") /\
  (match data with Some _ => true | None => false end
   && (0 <? count) && (count <=? Sender.maxDoubles_ s) && Sender.isOpen_ s = true ->
   Sender.send_result env < 0 ->
   Sender.outcome r =
     Sender.RuntimeError ("send/sendto failed: " ++ Sender.last_sock_err env)).
Proof.
  cbv zeta. unfold Sender.sendWithSeq.
  destruct data as [ds|]; cbn [andb]; [|repeat split; discriminate].
  destruct (Z.leb_spec count 0), (Z.ltb_spec 0 count); try lia; cbn [andb];
    [repeat split; discriminate|].
  destruct (Z.gtb_spec count (Sender.maxDoubles_ s)),
    (Z.leb_spec count (Sender.maxDoubles_ s)); try lia; cbn [andb];
    [repeat split; discriminate|].
  destruct (Sender.isOpen_ s); cbn [negb andb]; [|repeat split; discriminate].
  destruct (Sender.encodeFrame _ _ _ _ _ _) as [buf bytes].
  destruct (Z.ltb_spec (Sender.send_result env) 0), (Z.leb_spec 0 (Sender.send_result env));
    try lia; cbn [Sender.wire Sender.outcome];
    repeat split; try discriminate; try reflexivity; intros; lia.
Qed.

Lemma emits_exactly_when_valid_witness :
  let r := Sender.sendWithSeq Sender.HostLittle (Sender.mkEnv 5 (-1) "errno=101")
             (sample_sender 0) (Some [dbl_one]) 1 7 INT64_MIN in
  let valid := true && (0 <? 1) && (1 <=? 64) && true && (0 <=? -1) in
  (match Sender.wire r with Some _ => true | None => false end = valid) /\
  (valid = true -> Sender.outcome r = Sender.Returned (-1)) /\
  (Some [dbl_one] = None -> Sender.outcome r = Sender.InvalidArgument "data is null") /\
  (true && (0 <? 1) && (1 <=? 64) && true = true ->
   -1 < 0 ->
   Sender.outcome r = Sender.RuntimeError "send/sendto failed: errno=101").
Proof.
  exact (emits_exactly_when_valid Sender.HostLittle (Sender.mkEnv 5 (-1) "errno=101")
           (sample_sender 0) (Some [dbl_one]) 1 7 INT64_MIN).
Defined.

Lemma sendWithSeq_keeps h env s data count seq ts :
  sender_wf s -> kept s (Sender.sendWithSeq h env s data count seq ts).
Proof.
  intros Hwf.
  pose proof (CallFacts.sendWithSeq_after h env s data count seq ts Hwf) as H.
  cbv zeta in *. destruct H as (H1 & H2 & H3 & H4 & H5 & H6).
  split; [exact H1|]. split; [exact H2|]. split; [exact H4|]. split.
  - unfold Sender.sendWithSeq.
    destruct data; [|reflexivity].
    destruct (count <=? 0); [reflexivity|].
    destruct (count >? Sender.maxDoubles_ s); [reflexivity|].
    destruct (negb (Sender.isOpen_ s)); [reflexivity|].
    destruct (Sender.encodeFrame _ _ _ _ _ _). destruct (_ <? 0); reflexivity.
  - intros d Hd. destruct (H6 d Hd) as (ds & _ & Hc & _ & _ & _ & ->).
    exists count. split; [exact Hc|].
    pose proof (u16_le count ltac:(lia)).
    destruct (wire_fields (u16 count) seq (stamp s env ts)
                (payload_bytes (read_data ds (Z.to_nat (u16 count)))))
      as (_ & _ & Wc & _ & _).
    cbv zeta in Wc. split.
    + rewrite Wc. unfold u16. apply Z.mod_mod. lia.
    + rewrite length_app, SenderFacts.length_header_bytes, SenderFacts.length_payload_bytes.
      unfold read_data. rewrite length_map, length_seq. lia.
Qed.

Lemma call_keeps h s env c : sender_wf s -> kept s (Sender.call h s env c).
Proof.
  intros Hwf. destruct c as [data count seq ts | data count |]; cbn [Sender.call].
  - apply sendWithSeq_keeps, Hwf.
  - unfold Sender.sendAutoSeq. cbv zeta.
    apply (sendWithSeq_keeps h env (Sender.set_seq s (s32 (Sender.seq_ s + 1)))
             data count (Sender.seq_ s) INT64_MIN Hwf).
  - destruct Hwf. repeat split; auto. discriminate.
Qed.

Lemma lifetime_keeps h calls : forall s,
  sender_wf s -> Forall (kept s) (Sender.lifetime h s calls).
Proof.
  induction calls as [|[env c] calls IH]; intros s Hwf; cbn [Sender.lifetime];
    constructor.
  - apply call_keeps, Hwf.
  - destruct (call_keeps h s env c Hwf) as (K1 & K2 & K3 & K4 & _).
    eapply Forall_impl; [|apply (IH _ K1)].
    intros r (R1 & R2 & R3 & R4 & R5).
    split; [exact R1|]. split; [congruence|]. split; [congruence|]. split; [congruence|].
    intros d Hd. destruct (R5 d Hd) as (count & Hc & Hrest).
    exists count. rewrite <- K2. auto.
Qed.

(** X13. No datagram exceeds the payload budget.  A sender built with a
    payload limit (the argument when positive, 1400 otherwise) emits, in
    any call of its life, only datagrams of [20 + 8 * n] bytes, [n] being
    the count field they carry, and that is at most [20 + 8 * capacity]
    and at most the payload limit. *)
Theorem datagram_within_budget (h : Sender.HostOrder)
    (maxDoubles maxPayloadBytes now fd : Z) (connectUdp : bool)
    (calls : list (Sender.Env * Sender.Call)) :
  let payloadLimit := if maxPayloadBytes >? 0 then maxPayloadBytes else 1400 in
  match Sender.construct maxDoubles connectUdp maxPayloadBytes now (inr fd) with
  | Sender.Returned s =>
      Forall (fun r => forall d, Sender.wire r = Some d ->
                Z.of_nat (length d) = 20 + 8 * wire_count d /\
                Z.of_nat (length d) <= 20 + 8 * Sender.getMaxDoubles s /\
                Z.of_nat (length d) <= payloadLimit)
             (Sender.lifetime h s calls)
  | _ => False
  end.
Proof.
  intros payloadLimit.
  destruct (Sender.construct maxDoubles connectUdp maxPayloadBytes now (inr fd))
    as [s | what | what] eqn:Hcons; try discriminate.
  destruct (CallFacts.construct_wf _ _ _ _ _ _ Hcons) as (Hwf & _ & _).
  eapply Forall_impl; [|apply (lifetime_keeps h calls s Hwf)].
  intros r (_ & _ & _ & _ & Hd) d Hw.
  destruct (Hd d Hw) as (count & Hc & Hwc & Hlen).
  pose proof (u16_le count ltac:(lia)) as Hu.
  assert (Hcap : 8 * Sender.maxDoubles_ s <= payloadLimit - 20).
  { unfold Sender.construct in Hcons. injection Hcons as <-.
    cbn [Sender.maxDoubles_] in *. fold payloadLimit in Hc |- *.
    unfold Sender.DEFAULT_MAX_UDP_PAYLOAD, Sender.HEADER_BYTES in *. fold payloadLimit in Hc |- *.
    destruct (Z_lt_le_dec (payloadLimit - 20) 8) as [Hsmall | Hbig].
    - assert (Z.quot (payloadLimit - 20) 8 <= 0); [|lia].
      destruct (Z_lt_le_dec (payloadLimit - 20) 0).
      + pose proof (Z.quot_opp_l (- (payloadLimit - 20)) 8 ltac:(lia)) as Hq.
        rewrite Z.opp_involutive in Hq.
        pose proof (Z.quot_pos (- (payloadLimit - 20)) 8 ltac:(lia) ltac:(lia)). lia.
      + rewrite Z.quot_small; lia.
    - rewrite Z.quot_div_nonneg in * by lia.
      pose proof (Z.mul_div_le (payloadLimit - 20) 8 ltac:(lia)). lia. }
  unfold Sender.getMaxDoubles. rewrite Hwc. lia.
Qed.

(** X14. The calls of a sender's life leave its configuration alone: after
    every call the scratch buffer still has its [20 + 8 * capacity] bytes
    (the encoding step never writes past it), and the capacity, the clock
    offset and the connected mode are those the constructor fixed. *)
Theorem sender_keeps_configuration (h : Sender.HostOrder)
    (maxDoubles maxPayloadBytes now fd : Z) (connectUdp : bool)
    (calls : list (Sender.Env * Sender.Call)) :
  match Sender.construct maxDoubles connectUdp maxPayloadBytes now (inr fd) with
  | Sender.Returned s =>
      Forall (fun r =>
                Z.of_nat (length (Sender.buffer_ (Sender.after r))) =
                  20 + 8 * Sender.getMaxDoubles s /\
                Sender.getMaxDoubles (Sender.after r) = Sender.getMaxDoubles s /\
                Sender.tsOffset_ (Sender.after r) = Sender.initTimestampOffset_ now /\
                Sender.connect_ (Sender.after r) = connectUdp)
             (Sender.lifetime h s calls)
  | _ => False
  end.
Proof.
  destruct (Sender.construct maxDoubles connectUdp maxPayloadBytes now (inr fd))
    as [s | what | what] eqn:Hcons; try discriminate.
  destruct (CallFacts.construct_wf _ _ _ _ _ _ Hcons) as (Hwf & _ & Hoff).
  assert (Hconn : Sender.connect_ s = connectUdp)
    by (unfold Sender.construct in Hcons; injection Hcons as <-; reflexivity).
  eapply Forall_impl; [|apply (lifetime_keeps h calls s Hwf)].
  intros r ((R0 & R1) & R2 & R3 & R4 & _).
  unfold Sender.getMaxDoubles. rewrite R2 in *. unfold Sender.HEADER_BYTES in R1.
  repeat match goal with |- _ /\ _ => split end; try congruence. lia.
Qed.

(** ** The counter, the time stamp, and a closed socket *)

Lemma sendWithSeq_seq h env s data count seq ts :
  Sender.seq_ (Sender.after (Sender.sendWithSeq h env s data count seq ts)) = Sender.seq_ s.
Proof.
  unfold Sender.sendWithSeq.
  destruct data; [|reflexivity].
  destruct (count <=? 0); [reflexivity|].
  destruct (count >? Sender.maxDoubles_ s); [reflexivity|].
  destruct (negb (Sender.isOpen_ s)); [reflexivity|].
  destruct (Sender.encodeFrame _ _ _ _ _ _). destruct (_ <? 0); reflexivity.
Qed.

Lemma s32_range x : - 2 ^ 31 <= s32 x < 2 ^ 31.
Proof. wrap_arith. Qed.

Lemma final_state_cons h s env c calls :
  final_state h s ((env, c) :: calls) =
  final_state h (Sender.after (Sender.call h s env c)) calls.
Proof.
  unfold final_state. cbn [Sender.lifetime map]. apply last_cons.
Qed.

Lemma final_seq h calls : forall s,
  - 2 ^ 31 <= Sender.seq_ s < 2 ^ 31 ->
  Sender.seq_ (final_state h s calls) = s32 (Sender.seq_ s + Z.of_nat (count_auto calls)).
Proof.
  induction calls as [|[env c] calls IH]; intros s Hs.
  - cbn. rewrite Z.add_0_r. symmetry. apply s32_small, Hs.
  - rewrite final_state_cons. unfold count_auto. cbn [filter].
    destruct c as [data count seq ts | data count |];
      cbn [is_auto snd Sender.call].
    + rewrite IH; rewrite sendWithSeq_seq; [reflexivity | exact Hs].
    + unfold Sender.sendAutoSeq. cbv zeta.
      rewrite IH; rewrite sendWithSeq_seq; cbn [Sender.set_seq Sender.seq_];
        [|apply s32_range].
      cbn [length]. rewrite s32_add_l. f_equal. fold (count_auto calls). lia.
    + rewrite IH; [reflexivity | exact Hs].
Qed.

(** X15. The counter of a sender counts its [sendAutoSeq] calls, the
    failed ones included: after any calls on a new sender it holds their
    number wrapped to a signed 32-bit value, whether they sent, returned 0
    for an empty array or threw, while [sendWithSeq] and [close] leave it
    alone. *)
Theorem counter_counts_auto_calls (h : Sender.HostOrder)
    (maxDoubles maxPayloadBytes now fd : Z) (connectUdp : bool)
    (calls : list (Sender.Env * Sender.Call)) :
  match Sender.construct maxDoubles connectUdp maxPayloadBytes now (inr fd) with
  | Sender.Returned s =>
      Sender.seq_ (final_state h s calls) = s32 (Z.of_nat (count_auto calls))
  | _ => False
  end.
Proof.
  destruct (Sender.construct maxDoubles connectUdp maxPayloadBytes now (inr fd))
    as [s | what | what] eqn:Hcons; try discriminate.
  destruct (CallFacts.construct_wf _ _ _ _ _ _ Hcons) as (_ & Hseq & _).
  rewrite final_seq; rewrite Hseq; [reflexivity | lia].
Qed.

Lemma closed_call h s env c :
  Sender.isOpen_ s = false ->
  let r := Sender.call h s env c in
  Sender.wire r = None /\
  Sender.isOpen_ (Sender.after r) = false /\
  match Sender.outcome r with
  | Sender.Returned n => n = 0
  | Sender.RuntimeError what => what = "socket not open"%string
  | Sender.InvalidArgument _ => True
  end.
Proof.
  intros Hc.
  assert (H : forall s0 data count seq ts, Sender.isOpen_ s0 = false ->
            let r := Sender.sendWithSeq h env s0 data count seq ts in
            Sender.wire r = None /\ Sender.isOpen_ (Sender.after r) = false /\
            match Sender.outcome r with
            | Sender.Returned n => n = 0
            | Sender.RuntimeError what => what = "socket not open"%string
            | Sender.InvalidArgument _ => True
            end).
  { intros s0 data count seq ts H0. unfold Sender.sendWithSeq.
    destruct data; [|cbn; auto].
    destruct (count <=? 0); [cbn; auto|].
    destruct (count >? Sender.maxDoubles_ s0); [cbn; auto|].
    rewrite H0. cbn. auto. }
  destruct c as [data count seq ts | data count |]; cbn [Sender.call].
  - apply H, Hc.
  - unfold Sender.sendAutoSeq. cbv zeta. apply H. exact Hc.
  - cbn. auto.
Qed.

Lemma closed_lifetime h calls : forall s,
  Sender.isOpen_ s = false ->
  Forall (fun r =>
            Sender.wire r = None /\
            Sender.isOpen_ (Sender.after r) = false /\
            match Sender.outcome r with
            | Sender.Returned n => n = 0
            | Sender.RuntimeError what => what = "socket not open"%string
            | Sender.InvalidArgument _ => True
            end)
         (Sender.lifetime h s calls).
Proof.
  induction calls as [|[env c] calls IH]; intros s Hc; cbn [Sender.lifetime];
    constructor.
  - apply closed_call, Hc.
  - apply IH. apply (closed_call h s env c Hc).
Qed.

Lemma closed_call_outcome h s env c :
  Sender.isOpen_ s = false ->
  let r := Sender.call h s env c in
  Sender.maxDoubles_ (Sender.after r) = Sender.maxDoubles_ s /\
  Sender.outcome r =
    match c with
    | Sender.CallSendWithSeq data count _ _ | Sender.CallSendAutoSeq data count =>
        match data with
        | None => Sender.InvalidArgument "data is null"
        | Some _ =>
            if count <=? 0 then Sender.Returned 0
            else if count >? Sender.maxDoubles_ s
                 then Sender.InvalidArgument "count > maxDoubles/payload cap"
                 else Sender.RuntimeError "socket not open"
        end
    | Sender.CallClose => Sender.Returned 0
    end.
Proof.
  intros Hc.
  assert (H : forall s0 data count seq ts, Sender.isOpen_ s0 = false ->
            let r := Sender.sendWithSeq h env s0 data count seq ts in
            Sender.after r = s0 /\
            Sender.outcome r =
              match data with
              | None => Sender.InvalidArgument "data is null"
              | Some _ =>
                  if count <=? 0 then Sender.Returned 0
                  else if count >? Sender.maxDoubles_ s0
                       then Sender.InvalidArgument "count > maxDoubles/payload cap"
                       else Sender.RuntimeError "socket not open"
              end).
  { intros s0 data count seq ts H0. unfold Sender.sendWithSeq.
    destruct data; [|cbn; auto].
    destruct (count <=? 0); [cbn; auto|].
    destruct (count >? Sender.maxDoubles_ s0); [cbn; auto|].
    rewrite H0. cbn. auto. }
  destruct c as [data count seq ts | data count |]; cbn [Sender.call].
  - destruct (H s data count seq ts Hc) as [Ha Ho]. cbv zeta in *. rewrite Ha. auto.
  - unfold Sender.sendAutoSeq. cbv zeta.
    destruct (H (Sender.set_seq s (s32 (Sender.seq_ s + 1))) data count (Sender.seq_ s)
                INT64_MIN Hc) as [Ha Ho].
    cbv zeta in *. rewrite Ha. auto.
  - cbn. auto.
Qed.

(** X16. A closed sender sends nothing any more, and every call on it
    ends in the way its arguments alone decide.  After [close] the socket
    is not open and a second [close] changes nothing.  Every later call
    hands nothing to the socket and leaves the sender closed.  A send,
    [sendWithSeq] or [sendAutoSeq], with a null array throws the argument
    error "data is null"; with an array and a count of 0 or less it
    returns 0; with a count above the capacity it throws the argument
    error "count > maxDoubles/payload cap"; and with an array and a count
    within [1 .. capacity], the arguments of a send that would go out on
    an open socket, it throws the runtime error "socket not open". *)
Theorem closed_sender_is_silent (h : Sender.HostOrder) (s : Sender.State)
    (calls : list (Sender.Env * Sender.Call)) :
  Sender.isOpen_ (Sender.close s) = false /\
  Sender.close (Sender.close s) = Sender.close s /\
  Forall2
    (fun c r =>
       Sender.wire r = None /\
       Sender.isOpen_ (Sender.after r) = false /\
       Sender.outcome r =
         match snd c with
         | Sender.CallSendWithSeq data count _ _ | Sender.CallSendAutoSeq data count =>
             match data with
             | None => Sender.InvalidArgument "data is null"
             | Some _ =>
                 if count <=? 0 then Sender.Returned 0
                 else if count >? Sender.maxDoubles_ s
                      then Sender.InvalidArgument "count > maxDoubles/payload cap"
                      else Sender.RuntimeError "socket not open"
             end
         | Sender.CallClose => Sender.Returned 0
         end)
    calls (Sender.lifetime h (Sender.close s) calls).
Proof.
  split; [reflexivity|]. split; [reflexivity|].
  assert (Hc : Sender.isOpen_ (Sender.close s) = false) by reflexivity.
  assert (Hcap : Sender.maxDoubles_ (Sender.close s) = Sender.maxDoubles_ s) by reflexivity.
  revert Hc Hcap. generalize (Sender.close s) as s0.
  induction calls as [|[env c] calls IH]; intros s0 Hc Hcap; cbn [Sender.lifetime];
    constructor.
  - destruct (closed_call h s0 env c Hc) as (Hw & Ho & _).
    destruct (closed_call_outcome h s0 env c Hc) as (_ & Hout).
    cbv zeta in *. cbn [snd]. rewrite <- Hcap. auto.
  - apply IH.
    + apply (closed_call h s0 env c Hc).
    + destruct (closed_call_outcome h s0 env c Hc) as (Hm & _). cbv zeta in Hm. congruence.
Qed.

(** X17. [sendWithSeq] transmits the caller's sequence number and time
    stamp as given, negative ones too, with the one exception of the time
    stamp [INT64_MIN], in place of which it transmits the clock reading
    plus the offset. *)
Theorem given_stamp_is_transmitted (h : Sender.HostOrder) (env : Sender.Env)
    (s : Sender.State) (data : option (list double)) (count seq ts : Z)
    (d : list byte) :
  sender_wf s ->
  - 2 ^ 31 <= seq < 2 ^ 31 ->
  INT64_MIN <= ts <= INT64_MAX ->
  Sender.wire (Sender.sendWithSeq h env s data count seq ts) = Some d ->
  wire_sequence d = seq /\
  wire_timestamp d =
    (if ts =? INT64_MIN
     then Sender.monotonicNowNanosNonNegative_ s (Sender.clock_now env)
     else ts).
Proof.
  intros Hwf Hseq Hts Hd.
  destruct (CallFacts.sendWithSeq_after h env s data count seq ts Hwf)
    as (_ & _ & _ & _ & _ & Hw).
  destruct (Hw d Hd) as (ds & _ & _ & _ & _ & _ & ->).
  destruct (wire_fields (u16 count) seq (stamp s env ts)
              (payload_bytes (read_data ds (Z.to_nat (u16 count)))))
    as (_ & _ & _ & Ws & Wt).
  cbv zeta in Ws, Wt. rewrite Ws, Wt. split; [apply s32_small, Hseq|].
  unfold stamp. destruct (Z.eqb_spec ts INT64_MIN).
  - apply s64_idem.
  - apply s64_small. unfold INT64_MIN, INT64_MAX in *. lia.
Qed.

Lemma given_stamp_is_transmitted_witness :
  let d :=
    match Sender.wire (Sender.sendWithSeq Sender.HostLittle (sample_env 5) (sample_sender 0)
                         (Some [dbl_one]) 1 (-3) (-12345)) with
    | Some d => d
    | None => []
    end in
  wire_sequence d = -3 /\
  wire_timestamp d =
    (if -12345 =? INT64_MIN
     then Sender.monotonicNowNanosNonNegative_ (sample_sender 0)
            (Sender.clock_now (sample_env 5))
     else -12345).
Proof.
  intros d.
  apply (given_stamp_is_transmitted Sender.HostLittle (sample_env 5) (sample_sender 0)
           (Some [dbl_one]) 1 (-3) (-12345) d).
  - split; [vm_compute; discriminate | reflexivity].
  - split; vm_compute; congruence.
  - split; vm_compute; congruence.
  - vm_compute. reflexivity.
Defined.

(** ** Socket options *)

(** X18. The option setters are safe to call in any state.  On a closed
    socket, and on one whose family is neither IPv4 nor IPv6, none of the
    five makes a call; on an open one every call they make is at the
    protocol level of the socket's family, IPv4 options for an IPv4 socket
    and IPv6 options for an IPv6 one; and both hop-limit setters pass the
    requested value clamped to 0..255, which the one-byte IPv4 multicast
    TTL holds without loss. *)
Theorem setters_are_safe (k : SenderSocket.Sock) (hops : Z) (enable : bool)
    (ifAddrNbo ifIndex : Z) :
  Forall (fun c => c = None)
         (setter_calls (SenderSocket.closeSock_ k) hops enable ifAddrNbo ifIndex) /\
  (Sender.isOpen_ (SenderSocket.sender k) = false ->
   Forall (fun c => c = None) (setter_calls k hops enable ifAddrNbo ifIndex)) /\
  Forall (fun c => forall o, c = Some o ->
            Sender.isOpen_ (SenderSocket.sender k) = true /\
            level_matches (SenderSocket.family_ k) o)
         (setter_calls k hops enable ifAddrNbo ifIndex) /\
  (forall o,
     SenderSocket.setUnicastHopLimit k hops = Some o \/
     SenderSocket.setMulticastHopLimit k hops = Some o ->
     SenderSocket.optval o = Z.max 0 (Z.min hops 255) /\
     0 <= SenderSocket.optval o <= 255).
Proof.
  unfold setter_calls, SenderSocket.setUnicastHopLimit, SenderSocket.setMulticastHopLimit,
    SenderSocket.setMulticastLoop, SenderSocket.setMulticastInterfaceIPv4,
    SenderSocket.setMulticastInterfaceIPv6.
  split; [repeat constructor|].
  split.
  { intros ->. repeat constructor. }
  assert (Hmod : (Z.max 0 (Z.min hops 255)) mod 2 ^ 8 = Z.max 0 (Z.min hops 255))
    by (apply Z.mod_small; change (2 ^ 8) with 256; lia).
  split.
  - destruct (Sender.isOpen_ (SenderSocket.sender k)), (SenderSocket.family_ k);
      cbn [negb orb level_matches];
      repeat first [apply Forall_cons | apply Forall_nil]; intros o Ho;
      try discriminate; injection Ho as <-; split; reflexivity.
  - intros o Ho. cbv zeta in Ho. rewrite Hmod in Ho.
    destruct (Sender.isOpen_ (SenderSocket.sender k)), (SenderSocket.family_ k);
      cbn [negb] in Ho; destruct Ho as [Ho | Ho]; try discriminate;
      injection Ho as <-; cbn [SenderSocket.optval]; lia.
Qed.

Lemma setters_are_safe_witness :
  let k := SenderSocket.mkSock (sample_sender 0) SenderSocket.AF_INET in
  Forall (fun c => c = None) (setter_calls (SenderSocket.closeSock_ k) 300 true 1 2) /\
  (Sender.isOpen_ (SenderSocket.sender k) = false ->
   Forall (fun c => c = None) (setter_calls k 300 true 1 2)) /\
  Forall (fun c => forall o, c = Some o ->
            Sender.isOpen_ (SenderSocket.sender k) = true /\
            level_matches (SenderSocket.family_ k) o)
         (setter_calls k 300 true 1 2) /\
  (forall o,
     SenderSocket.setUnicastHopLimit k 300 = Some o \/
     SenderSocket.setMulticastHopLimit k 300 = Some o ->
     SenderSocket.optval o = Z.max 0 (Z.min 300 255) /\
     0 <= SenderSocket.optval o <= 255).
Proof.
  exact (setters_are_safe (SenderSocket.mkSock (sample_sender 0) SenderSocket.AF_INET)
           300 true 1 2).
Defined.

(** ** Setting up the sender's socket *)

Module SetupFacts.
Import SenderSocket.

Lemma bindLocal_result s family localPort ok :
  fst (bindLocal_ s family localPort ok) =
    ((localPort =? 0)
     || (match family with AF_INET | AF_INET6 => true | _ => false end && ok))%bool /\
  (forall held, left_open (snd (bindLocal_ s family localPort ok)) held = held) /\
  (localPort = 0 -> snd (bindLocal_ s family localPort ok) = []).
Proof.
  unfold bindLocal_. destruct (Z.eqb_spec localPort 0); cbn [orb];
    [repeat split|].
  destruct family; cbn; repeat split; intros; congruence.
Qed.

Lemma left_open_app calls1 calls2 held :
  left_open (calls1 ++ calls2) held = left_open calls2 (left_open calls1 held).
Proof.
  revert held; induction calls1 as [|c calls1 IH]; intros held; [reflexivity|].
  destruct c; cbn [app left_open]; apply IH.
Qed.

Lemma try_addresses_spec connect_ localPort sndbuf res : forall held,
  let '(calls, kept) := try_addresses connect_ localPort sndbuf res in
  kept = match find (usable connect_ localPort) res with
         | Some ai => Some (socket_ret ai, ai_family ai)
         | None => None
         end /\
  left_open calls held = match kept with Some (s, _) => s :: held | None => held end.
Proof.
  induction res as [|ai rest IH]; intros held; cbn [try_addresses find]; [split; reflexivity|].
  cbv zeta. unfold usable at 1.
  destruct (socket_ret ai <? 0) eqn:Hs; cbn [negb andb].
  - specialize (IH held).
    destruct (try_addresses connect_ localPort sndbuf rest) as [calls kept].
    destruct IH as [IH1 IH2]. split; [exact IH1|].
    cbn [left_open]. rewrite Hs. exact IH2.
  - pose proof (bindLocal_result (socket_ret ai) (ai_family ai) localPort (bind_ok ai))
      as (Hb & Hlo & _).
    destruct (bindLocal_ (socket_ret ai) (ai_family ai) localPort (bind_ok ai))
      as [bound binds].
    cbn [fst snd] in Hb, Hlo. rewrite <- Hb.
    set (opened := sys_socket (ai_family ai) (socket_ret ai) :: _).
    assert (Hop : forall hd, left_open (opened ++ binds) hd = socket_ret ai :: hd).
    { intros hd. rewrite left_open_app, Hlo. unfold opened.
      destruct (sndbuf >? 0); cbn [left_open]; rewrite Hs; reflexivity. }
    destruct bound; cbn [negb andb].
    + destruct connect_; cbn [negb orb].
      * destruct (connect_ok ai); cbn [negb].
        -- split; [reflexivity|].
           rewrite app_assoc, left_open_app, Hop. reflexivity.
        -- specialize (IH held).
           destruct (try_addresses true localPort sndbuf rest) as [calls kept].
           destruct IH as [IH1 IH2]. split; [exact IH1|].
           rewrite app_assoc, left_open_app, Hop. cbn [left_open ReceiverSocket.remove_one].
           rewrite Z.eqb_refl. exact IH2.
      * split; [reflexivity | apply Hop].
    + specialize (IH held).
      destruct (try_addresses connect_ localPort sndbuf rest) as [calls kept].
      destruct IH as [IH1 IH2]. split; [exact IH1|].
      rewrite app_assoc, left_open_app, Hop. cbn [left_open ReceiverSocket.remove_one].
      rewrite Z.eqb_refl. exact IH2.
Qed.

Lemma try_addresses_calls connect_ localPort sndbuf res :
  (connect_ = false ->
   forallb (fun c => negb (is_connect c)) (fst (try_addresses connect_ localPort sndbuf res)) = true) /\
  (localPort = 0 ->
   forallb (fun c => negb (is_bind c)) (fst (try_addresses connect_ localPort sndbuf res)) = true).
Proof.
  induction res as [|ai rest [IH1 IH2]]; cbn [try_addresses]; [split; reflexivity|].
  destruct (try_addresses connect_ localPort sndbuf rest) as [calls kept].
  cbn [fst] in IH1, IH2. cbv zeta.
  destruct (socket_ret ai <? 0); [cbn; split; assumption|].
  unfold bindLocal_.
  split.
  - intros ->. specialize (IH1 eq_refl).
    destruct (localPort =? 0), (ai_family ai), (bind_ok ai), (sndbuf >? 0);
      cbn; try assumption; reflexivity.
  - intros ->. specialize (IH2 eq_refl). cbn.
    destruct connect_, (connect_ok ai), (sndbuf >? 0); cbn; try assumption; reflexivity.
Qed.

(** The socket kept is that of the first usable address, and it is the
    only one left open. *)
Lemma createAndConfigureSocket_kept connect_ localPort sndbuf gai_rc gai_text res :
  let '(calls, made) :=
    createAndConfigureSocket_ connect_ localPort sndbuf gai_rc gai_text res in
  made = expected_socket connect_ localPort gai_rc gai_text res /\
  left_open calls [] = match made with inr (s, _) => [s] | inl _ => [] end.
Proof.
  unfold createAndConfigureSocket_, expected_socket.
  destruct (negb (gai_rc =? 0) || match res with [] => true | _ => false end)%bool;
    [split; reflexivity|].
  pose proof (try_addresses_spec connect_ localPort sndbuf res []) as Hs.
  destruct (try_addresses connect_ localPort sndbuf res) as [calls kept].
  destruct Hs as [Hk Hl].
  destruct (find (usable connect_ localPort) res) as [ai|]; subst kept; split; auto.
Qed.

Lemma usable_open connect_ localPort res ai :
  find (usable connect_ localPort) res = Some ai -> 0 <= socket_ret ai.
Proof.
  intros Hf. apply find_some in Hf. destruct Hf as [_ Hu]. unfold usable in Hu.
  destruct (Z.ltb_spec (socket_ret ai) 0); [discriminate | assumption].
Qed.

End SetupFacts.

(** X19. [createAndConfigureSocket_] keeps the first address that works
    and leaks nothing.  When [getaddrinfo] fails or returns no address it
    throws without a system call.  Otherwise it keeps the socket of the
    first address for which [socket] succeeds, the local bind succeeds
    (not attempted for port 0, refused for a family other than IPv4 and
    IPv6) and, in connected mode, [connect] succeeds; it throws when there
    is none.  Every socket it opened for another address is closed again:
    the only socket left open is the one it keeps, none when it throws.
    It never calls [connect] in unconnected mode nor [bind] for port 0. *)
Theorem first_usable_address_is_kept (connect_ : bool) (localPort requestedSndBuf : Z)
    (gai_rc : Z) (gai_text : string) (res : list SenderSocket.Candidate) :
  let '(calls, made) :=
    SenderSocket.createAndConfigureSocket_ connect_ localPort requestedSndBuf
      gai_rc gai_text res in
  made =
    (if negb (gai_rc =? 0) || match res with [] => true | _ => false end
     then inl ("getaddrinfo failed: " ++ gai_text)%string
     else
       match find (SenderSocket.usable connect_ localPort) res with
       | Some ai => inr (SenderSocket.socket_ret ai, SenderSocket.ai_family ai)
       | None => inl "Failed to create usable UDP socket for any resolved address"%string
       end) /\
  (negb (gai_rc =? 0) || match res with [] => true | _ => false end = true -> calls = []) /\
  SenderSocket.left_open calls [] =
    match made with inr (s, _) => [s] | inl _ => [] end /\
  (connect_ = false -> forallb (fun c => negb (is_connect c)) calls = true) /\
  (localPort = 0 -> forallb (fun c => negb (is_bind c)) calls = true).
Proof.
  pose proof (SetupFacts.createAndConfigureSocket_kept connect_ localPort requestedSndBuf
                gai_rc gai_text res) as Hk.
  pose proof (SetupFacts.try_addresses_calls connect_ localPort requestedSndBuf res) as Hc.
  unfold SenderSocket.createAndConfigureSocket_, expected_socket in *.
  destruct (negb (gai_rc =? 0) || match res with [] => true | _ => false end)%bool.
  - destruct Hk as [Hm Hl]. repeat match goal with |- _ /\ _ => split end; auto.
  - destruct (SenderSocket.try_addresses connect_ localPort requestedSndBuf res)
      as [calls [kept|]]; cbn [fst] in Hc; destruct Hk as [Hm Hl]; destruct Hc as [Hc1 Hc2];
      repeat match goal with |- _ /\ _ => split end; auto; discriminate.
Qed.

(** Three addresses in connected mode with a local port: the third is
    kept, the socket opened for the second is closed. *)
Lemma first_usable_address_is_kept_witness :
  let '(calls, made) :=
    SenderSocket.createAndConfigureSocket_ true 30002 131072 0 EmptyString three_addresses in
  made = inr (4, SenderSocket.AF_INET) /\
  (false = true -> calls = []) /\
  SenderSocket.left_open calls [] = [4] /\
  (true = false -> forallb (fun c => negb (is_connect c)) calls = true) /\
  (30002 = 0 -> forallb (fun c => negb (is_bind c)) calls = true).
Proof.
  exact (first_usable_address_is_kept true 30002 131072 0 EmptyString three_addresses).
Defined.

(** X20. The constructor either builds a sender that owns exactly one open
    socket, that of the first usable address, with the family of that
    address, the counter at 0 and the capacity clamped to the payload
    limit, or throws a runtime error and leaves no socket open; it throws
    exactly when [getaddrinfo] fails or no address is usable, and never
    an argument error. *)
Theorem constructor_owns_its_socket (maxDoubles maxPayloadBytes localPort requestedSndBuf
    now gai_rc : Z) (connectUdp : bool) (gai_text : string)
    (res : list SenderSocket.Candidate) :
  let '(calls, made) :=
    SenderSocket.construct maxDoubles connectUdp maxPayloadBytes localPort requestedSndBuf
      now gai_rc gai_text res in
  let found := find (SenderSocket.usable connectUdp localPort) res in
  match made with
  | Sender.Returned k =>
      gai_rc = 0 /\
      (exists ai, found = Some ai /\
         Sender.sock_ (SenderSocket.sender k) = SenderSocket.socket_ret ai /\
         SenderSocket.family_ k = SenderSocket.ai_family ai) /\
      Sender.isOpen_ (SenderSocket.sender k) = true /\
      SenderSocket.left_open calls [] = [Sender.sock_ (SenderSocket.sender k)] /\
      Sender.seq_ (SenderSocket.sender k) = 0 /\
      Sender.connect_ (SenderSocket.sender k) = connectUdp /\
      0 <= Sender.getMaxDoubles (SenderSocket.sender k) <= Z.max 0 maxDoubles /\
      (0 < Sender.getMaxDoubles (SenderSocket.sender k) ->
       Sender.HEADER_BYTES + 8 * Sender.getMaxDoubles (SenderSocket.sender k) <=
         (if maxPayloadBytes >? 0 then maxPayloadBytes else Sender.DEFAULT_MAX_UDP_PAYLOAD))
  | Sender.RuntimeError _ =>
      SenderSocket.left_open calls [] = [] /\
      (gai_rc <> 0 \/ found = None)
  | Sender.InvalidArgument _ => False
  end.
Proof.
  unfold SenderSocket.construct.
  pose proof (SetupFacts.createAndConfigureSocket_kept connectUdp localPort requestedSndBuf
                gai_rc gai_text res) as H.
  destruct (SenderSocket.createAndConfigureSocket_ connectUdp localPort requestedSndBuf
              gai_rc gai_text res) as [calls made].
  destruct H as (Hm & Hl). unfold expected_socket in Hm.
  destruct (Z.eqb_spec gai_rc 0) as [Hrc | Hrc]; cbn [negb orb] in Hm.
  - destruct res as [|ai0 rest]; [subst made; cbn; auto|].
    destruct (find (SenderSocket.usable connectUdp localPort) (ai0 :: rest))
      as [ai|] eqn:Hf; subst made.
    + pose proof (SetupFacts.usable_open _ _ _ _ Hf) as Hopen.
      unfold Sender.construct. cbv zeta.
      cbn [SenderSocket.family_ SenderSocket.sender Sender.sock_ Sender.seq_
           Sender.connect_ Sender.getMaxDoubles Sender.maxDoubles_].
      unfold Sender.isOpen_. cbn [Sender.sock_].
      repeat match goal with |- _ /\ _ => split end; auto.
      * exists ai. auto.
      * apply Z.geb_le. lia.
      * lia.
      * lia.
      * unfold Sender.HEADER_BYTES, Sender.DEFAULT_MAX_UDP_PAYLOAD.
        destruct (maxPayloadBytes >? 0); intros Hpos;
          match goal with
          | H : 0 < Z.max 0 (Z.min _ (Z.max 0 (Z.quot ?a 8))) |- _ =>
              pose proof (Z.quot_rem' a 8); pose proof (Z.rem_bound_pos a 8);
              assert (0 < Z.quot a 8) by lia;
              assert (0 <= a) by (destruct (Z.le_gt_cases 0 a); [assumption|];
                                  pose proof (Z.quot_opp_l a 8); pose proof (Z.quot_pos (- a) 8); lia)
          end; lia.
    + cbn zeta. auto.
  - subst made. cbn zeta. auto.
Qed.

(** ** Moving a sender *)

(** X21. Moving a sender moves the ownership of its socket.  The object
    moved to is the source as it was, so that it carries on with the same
    socket, counter, capacity and clock offset; the source is left closed
    and sends nothing any more.  Across a move assignment and the
    destruction of both objects every socket is closed exactly once: the
    old socket of the target by the assignment, the moved one by the
    destructor of the target, none by the destructor of the source. *)
Theorem move_transfers_ownership (h : Sender.HostOrder) (this other : Sender.State)
    (leftover : list byte) (calls : list (Sender.Env * Sender.Call)) :
  let '(this', other', closes) := SenderOwnership.move_assign this other leftover in
  this' = other /\
  Forall (fun r => Sender.wire r = None) (Sender.lifetime h other' calls) /\
  closes ++ SenderOwnership.destroy this' ++ SenderOwnership.destroy other' =
    SenderOwnership.destroy this ++ SenderOwnership.destroy other /\
  SenderOwnership.destroy other' = [] /\
  SenderOwnership.move_construct other leftover = (this', other').
Proof.
  unfold SenderOwnership.move_assign, SenderOwnership.move_construct,
    SenderOwnership.moveFrom_, SenderOwnership.destroy, SenderOwnership.closeSock_.
  destruct other as [sock conn cap seq buf off].
  cbn [Sender.sock_ Sender.connect_ Sender.maxDoubles_ Sender.seq_ Sender.buffer_
       Sender.tsOffset_].
  destruct (Sender.sock_ this >=? 0) eqn:Ht; cbn [snd];
    (split; [reflexivity|]); (split; [|split; [|split; reflexivity]]).
  1,3: (eapply Forall_impl; [|apply closed_lifetime; reflexivity];
        intros r Hr; apply Hr).
  all: cbn [Sender.sock_ Z.geb Z.compare snd app]; rewrite ?app_nil_r; reflexivity.
Qed.

(** ** From [sendWithSeq] to [getLatest] *)

Lemma read_data_firstn_aux k (l1 l2 : list double) :
  length l1 = k -> map (fun i => nth i (l1 ++ l2) 0) (List.seq 0 k) = l1.
Proof.
  intros <-. transitivity (read_data l1 (length l1)); [|apply SenderFacts.read_data_all].
  unfold read_data. apply map_ext_in. intros i Hi. apply in_seq in Hi.
  apply app_nth1. lia.
Qed.

Lemma read_data_firstn (data : list double) k :
  (k <= length data)%nat -> read_data data k = firstn k data.
Proof.
  intros Hk. unfold read_data.
  pose proof (read_data_firstn_aux k (firstn k data) (skipn k data)) as H.
  rewrite firstn_skipn in H. apply H. rewrite length_firstn. lia.
Qed.

Lemma Forall_firstn_keeps {A} (P : A -> Prop) k : forall l,
  Forall P l -> Forall P (firstn k l).
Proof.
  induction k as [|k IH]; intros l Hl; [constructor|].
  destruct Hl as [|x l Hx Hl]; constructor; auto.
Qed.

(** X22. What the sender sends is what the receiver hands out.  When
    [sendWithSeq], given an array of at least [count] doubles, hands a
    datagram to the socket and the loop of a running big-endian receiver
    takes it in, [getLatest] returns true with the sequence number and
    the transmitted time stamp as unsigned values and the first doubles of
    the array bit for bit, as many of them as the 16-bit count field holds:
    [count] modulo 65536. *)
Theorem sent_is_received (h : Sender.HostOrder) (env : Sender.Env) (s : Sender.State)
    (ds : list double) (count seq ts : Z) (d : list byte)
    (r : Receiver.State) (out : Receiver.Packet) :
  sender_wf s ->
  count <= Z.of_nat (length ds) ->
  Forall is_double ds ->
  Sender.wire (Sender.sendWithSeq h env s (Some ds) count seq ts) = Some d ->
  Receiver.endian_ r = Receiver.Big ->
  Receiver.running_ r = true ->
  let r' := Receiver.run r [(false, Receiver.Received d)] in
  Receiver.getLatest r' out =
    (r',
     Receiver.mkPacket (u32 seq) (u64 (stamp s env ts)) (firstn (Z.to_nat (u16 count)) ds),
     true).
Proof.
  intros Hwf Hlen Hdbl Hd Hbig Hrun r'.
  destruct (CallFacts.sendWithSeq_after h env s (Some ds) count seq ts Hwf)
    as (_ & _ & _ & _ & _ & Hw).
  destruct (Hw d Hd) as (ds' & Hds & Hc & _ & _ & _ & Hbytes).
  injection Hds as <-.
  pose proof (u16_le count ltac:(lia)) as Hu.
  assert (Hn : 0 <= u16 count < 2 ^ 16) by (unfold u16; apply Z.mod_pos_bound; lia).
  rewrite read_data_firstn in Hbytes by lia.
  set (sent := firstn (Z.to_nat (u16 count)) ds) in *.
  assert (Hsent : length sent = Z.to_nat (u16 count))
    by (unfold sent; rewrite length_firstn; lia).
  assert (Hdec : Receiver.decode Receiver.Big d (Z.of_nat (length d)) =
                 Some (Receiver.mkPacket (u32 seq) (u64 (stamp s env ts)) sent)).
  { rewrite Hbytes at 1. rewrite <- (app_nil_r (payload_bytes sent)).
    rewrite CodecFacts.decode_layout; try assumption.
    - rewrite CodecFacts.map_u64_doubles; [reflexivity|].
      unfold sent. apply Forall_firstn_keeps, Hdbl.
    - rewrite Hbytes, length_app, SenderFacts.length_header_bytes,
        SenderFacts.length_payload_bytes. lia. }
  unfold r'. cbn [Receiver.run]. rewrite Hrun.
  rewrite ReceiverFacts.run_iteration_received. cbv zeta.
  rewrite Hbig, Hdec. reflexivity.
Qed.

(** Two doubles of an array of three, sent with sequence number -1. *)
Lemma sent_is_received_witness :
  let ds := [dbl_one; dbl_neg_zero; dbl_quiet_nan] in
  let d :=
    match Sender.wire (Sender.sendWithSeq Sender.HostLittle (sample_env 5) (sample_sender 0)
                         (Some ds) 2 (-1) 77) with
    | Some d => d
    | None => []
    end in
  let r' := Receiver.run sample_receiver [(false, Receiver.Received d)] in
  Receiver.getLatest r' (Receiver.mkPacket 0 0 []) =
    (r',
     Receiver.mkPacket (u32 (-1)) (u64 (stamp (sample_sender 0) (sample_env 5) 77))
       (firstn (Z.to_nat (u16 2)) ds),
     true).
Proof.
  intros ds d.
  apply (sent_is_received Sender.HostLittle (sample_env 5) (sample_sender 0) ds 2 (-1) 77 d
           sample_receiver (Receiver.mkPacket 0 0 [])).
  - split; [vm_compute; discriminate | reflexivity].
  - vm_compute. discriminate.
  - repeat first [apply Forall_cons | apply Forall_nil]; split; vm_compute; congruence.
  - vm_compute. reflexivity.
  - reflexivity.
  - reflexivity.
Defined.

(** ** Failing receives *)

Lemma run_skips_errors (r : Receiver.State) (turns : list (bool * Receiver.RecvResult)) :
  Receiver.run r turns =
  Receiver.run r (filter (fun t => negb (is_receive_error t)) turns).
Proof.
  assert (Hoff : forall r0 l, Receiver.running_ r0 = false -> Receiver.run r0 l = r0).
  { intros r0 [|[s0 res0] l] H0; cbn [Receiver.run]; [|rewrite H0]; reflexivity. }
  revert r; induction turns as [|[stopped res] rest IH]; intros r; [reflexivity|].
  cbn [filter is_receive_error].
  destruct stopped; [|destruct res as [err | d]]; cbn [negb Receiver.run];
    try (rewrite IH; reflexivity).
  unfold Receiver.run_iteration.
  destruct (Receiver.running_ r) eqn:Hrun; [apply IH|].
  symmetry. apply Hoff, Hrun.
Qed.

Module RecvLoopFacts.

(** A turn on two receivers that differ in the content of the buffer
    only, one seeing what a failed [recvfrom] stored, the other not. *)
Lemma run_iteration_published r1 r2 stopped res :
  published r1 = published r2 ->
  published (RecvLoop.run_iteration r1 stopped res) =
  published (Receiver.run_iteration r2 stopped (RecvLoop.plain res)).
Proof.
  unfold published. intros H. injection H as Hl Hd Hr He.
  unfold RecvLoop.run_iteration, Receiver.run_iteration.
  destruct res as [err written | d]; cbn [RecvLoop.stored RecvLoop.plain].
  - destruct stopped; cbn; congruence.
  - cbn [Receiver.set_recvBuffer Receiver.recvBuffer_ Receiver.endian_].
    rewrite !memcpy_0, !decode_stale, He.
    destruct stopped; [cbn; congruence|].
    destruct (Receiver.decode (Receiver.endian_ r2) d (Z.of_nat (length d)));
      cbn; congruence.
Qed.

Lemma run_published turns : forall r1 r2,
  published r1 = published r2 ->
  published (RecvLoop.run r1 turns) =
  published (Receiver.run r2 (map (fun t => (fst t, RecvLoop.plain (snd t))) turns)).
Proof.
  induction turns as [|[stopped res] turns IH]; intros r1 r2 H; [exact H|].
  cbn [RecvLoop.run Receiver.run map fst snd].
  assert (Hrun : Receiver.running_ r1 = Receiver.running_ r2)
    by (unfold published in H; congruence).
  rewrite Hrun. destruct (Receiver.running_ r2); [|exact H].
  apply IH, run_iteration_published, H.
Qed.

Lemma plain_filter turns :
  filter (fun t => negb (is_receive_error t))
         (map (fun t => (fst t, RecvLoop.plain (snd t))) turns) =
  map (fun t => (fst t, RecvLoop.plain (snd t)))
      (filter (fun t => negb (RecvLoop.is_failure t)) turns).
Proof.
  induction turns as [|[stopped [err written | d]] turns IH]; [reflexivity| |];
    destruct stopped; cbn; rewrite ?IH; reflexivity.
Qed.

End RecvLoopFacts.

(** X23. What a failing [recvfrom] leaves behind is never published.  In
    the loop in which a failed [recvfrom] may have overwritten the start
    of the buffer (the start of an oversize datagram, with
    [WSAEMSGSIZE]), a turn with a socket error, would-block or any other,
    neither ends the loop nor changes the slot or the has-data flag, and
    the bytes it left in the buffer never reach a packet stored later:
    after any run the slot, the flag, [running_] and the byte order are
    what they are when the failed turns are left out, and what the loop
    that ignores the buffer of a failed turn computes. *)
Theorem failed_receives_publish_nothing (r : Receiver.State)
    (turns : list (bool * RecvLoop.Recv)) :
  published (RecvLoop.run r turns) =
    published (RecvLoop.run r (filter (fun t => negb (RecvLoop.is_failure t)) turns)) /\
  published (RecvLoop.run r turns) =
    published (Receiver.run r (map (fun t => (fst t, RecvLoop.plain (snd t))) turns)).
Proof.
  split; [|apply RecvLoopFacts.run_published; reflexivity].
  rewrite (RecvLoopFacts.run_published turns r r eq_refl).
  rewrite (RecvLoopFacts.run_published _ r r eq_refl).
  rewrite run_skips_errors, RecvLoopFacts.plain_filter. reflexivity.
Qed.
